(** * generate_uid_dict.py: the UID dictionary generator of pydicom

    A shallow embedding of [source/generate_dict/generate_uid_dict.py]
    and the properties of its row extractor, normalisation pass,
    serialiser and module-level pipeline.

    Python values are modelled as follows.
    - [str] is a list of Unicode code points (Python 3 strings); the
      code point of a character is an [N].
    - a [dict] with string keys is a [gmap (list N) _].
    - a [list] indexed by position is a Rocq list read and written through
      [getitem] and [setitem], which raise [IndexError] out of range.
    - an exception is a value of [exn]; code that may raise returns a
      [result].
    - an [xml.etree.ElementTree.Element] is a tree of [Element]s holding
      the tag, the text and the children (the attributes and the tail
      text are never read by the script). *)

From Stdlib Require Import String Ascii NArith ZArith List Lia DecimalString.
From stdpp Require Import base option list gmap fin_maps.

Local Open Scope N_scope.
Local Open Scope list_scope.

(** ** Strings *)

Abbreviation str := (list N).

(** An ASCII literal as a Python string. *)
Definition lit (s : string) : str :=
  List.map N_of_ascii (list_ascii_of_string s).

(** [s.startswith(p)] *)
Fixpoint startswith (s p : str) : bool :=
  match p, s with
  | [], _ => true
  | _ :: _, [] => false
  | a :: p', b :: s' => (a =? b) && startswith s' p'
  end.

(** [sub in s] *)
Fixpoint contains (sub s : str) : bool :=
  startswith s sub ||
  match s with
  | [] => false
  | _ :: s' => contains sub s'
  end.

(** [s.replace(old, new)]: the occurrences of [old] are replaced from left
    to right and do not overlap.  [skip] counts the characters of a match
    that are still to be passed over. *)
Fixpoint replace_from (old new : str) (skip : nat) (s : str) : str :=
  match s with
  | [] => []
  | c :: s' =>
      match skip with
      | S k => replace_from old new k s'
      | O =>
          if startswith s old
          then new ++ replace_from old new (length old - 1) s'
          else c :: replace_from old new 0 s'
      end
  end.

Definition replace (s old new : str) : str :=
  match old with
  | [] => new ++ flat_map (fun c => c :: new) s
  | _ :: _ => replace_from old new 0 s
  end.

(** [str.isspace] on one character, as used by [str.strip()]. *)
Definition isspace (c : N) : bool :=
  ((9 <=? c) && (c <=? 13)) || ((28 <=? c) && (c <=? 32)) ||
  (c =? 133) || (c =? 160) || (c =? 5760) ||
  ((8192 <=? c) && (c <=? 8202)) ||
  (c =? 8232) || (c =? 8233) || (c =? 8239) || (c =? 8287) || (c =? 12288).

Fixpoint lstrip (s : str) : str :=
  match s with
  | [] => []
  | c :: s' => if isspace c then lstrip s' else s
  end.

Definition rstrip (s : str) : str := rev (lstrip (rev s)).

(** [s.strip()] *)
Definition strip (s : str) : str := rstrip (lstrip s).

(** ** Exceptions *)

Inductive exn := IndexError | AttributeError | KeyError | TypeError | ValueError.

Inductive result (A : Type) :=
| Ok (a : A)
| Raise (e : exn).
Arguments Ok {A} a.
Arguments Raise {A} e.

Definition bind {A B} (m : result A) (f : A -> result B) : result B :=
  match m with
  | Ok a => f a
  | Raise e => Raise e
  end.

Notation "'let*' x ':=' m 'in' k" := (bind m (fun x => k))
  (at level 10, x name, m at level 100, k at level 200).

Fixpoint mapM {A B} (f : A -> result B) (l : list A) : result (list B) :=
  match l with
  | [] => Ok []
  | x :: l' => let* y := f x in let* ys := mapM f l' in Ok (y :: ys)
  end.

(** [s.split(sep)]: the list of the segments between the occurrences of
    [sep]; [cur] is the segment being read. *)
Fixpoint split_from (sep : str) (skip : nat) (cur : str) (s : str) : list str :=
  match s with
  | [] => [cur]
  | c :: s' =>
      match skip with
      | S k => split_from sep k cur s'
      | O =>
          if startswith s sep
          then cur :: split_from sep (length sep - 1) [] s'
          else split_from sep 0 (cur ++ [c]) s'
      end
  end.

Definition split (s sep : str) : result (list str) :=
  match sep with
  | [] => Raise ValueError
  | _ :: _ => Ok (split_from sep 0 [] s)
  end.

(** ** Lists indexed by position *)

(** The position an index denotes: a negative index counts from the end. *)
Definition position {A} (l : list A) (i : Z) : option nat :=
  let n := Z.of_nat (length l) in
  let j := (if i <? 0 then i + n else i)%Z in
  if ((0 <=? j) && (j <? n))%Z then Some (Z.to_nat j) else None.

(** [l[i]] *)
Definition getitem {A} (l : list A) (i : Z) : result A :=
  match position l i with
  | Some j =>
      match l !! j with
      | Some x => Ok x
      | None => Raise IndexError
      end
  | None => Raise IndexError
  end.

(** [l[i] = x] *)
Definition setitem {A} (l : list A) (i : Z) (x : A) : result (list A) :=
  match position l i with
  | Some j => Ok (<[j := x]> l)
  | None => Raise IndexError
  end.

(** ** Element trees *)

#[warnings="-register-all"]
Inductive Element :=
| Elem (tag : str) (text : option str) (children : list Element).

Definition tag (e : Element) : str := let (t, _, _) := e in t.
Definition text (e : Element) : option str := let (_, x, _) := e in x.
Definition children (e : Element) : list Element := let (_, _, c) := e in c.

Definition str_eqb (a b : str) : bool := bool_decide (a = b).

(** The element and all the elements below it, in document order. *)
Fixpoint walk (e : Element) : list Element :=
  match e with
  | Elem _ _ cs => e :: flat_map walk cs
  end.

(** [e.iter(t)] *)
Definition iter (t : str) (e : Element) : list Element :=
  List.filter (fun x => str_eqb (tag x) t) (walk e).

(** [e.find(t)] for a plain tag [t]: the first child with that tag. *)
Definition find (t : str) (e : Element) : option Element :=
  List.find (fun x => str_eqb (tag x) t) (children e).

(** ** Dictionaries *)

(** [d[k]] *)
Definition dict_get {V} (d : gmap str V) (k : str) : result V :=
  match d !! k with
  | Some v => Ok v
  | None => Raise KeyError
  end.

(** [{key: value for key, value in pairs}]: a later pair overwrites an
    earlier one with the same key. *)
Definition dict_of {V} (pairs : list (str * V)) : gmap str V :=
  foldl (fun d kv => <[kv.1 := kv.2]> d) ∅ pairs.

(** ** The row extractor *)

(** [br], the namespace prefix of the docbook tags. *)
Definition br : str := lit "{http://docbook.org/ns/docbook}".

Definition zero_width_space : str := [8203].
Definition soft_hyphen : str := [173].

(** The body of the loop over the [para] cells of a row: the text of the
    [emphasis] child when there is one, the text of the cell otherwise,
    stripped and with the zero width spaces removed; the empty string
    when there is no text. *)
Definition cell_value (cell : Element) : str :=
  match find (br ++ lit "emphasis") cell with
  | Some emph_value =>
      match text emph_value with
      | Some t => replace (strip t) zero_width_space []
      | None => []
      end
  | None =>
      match text cell with
      | Some t => replace (strip t) zero_width_space []
      | None => []
      end
  end.

(** [cell_values] as the loop leaves it. *)
Definition row_cells (row : Element) : list str :=
  List.map cell_value (iter (br ++ lit "para") row).

(** [if '(Retired)' in cell_values[1]: ...] *)
Definition retired_step (cell_values : list str) : result (list str) :=
  let* name := getitem cell_values 1 in
  if contains (lit "(Retired)") name then
    let* cell_values := setitem cell_values 4 (lit "Retired") in
    let* name := getitem cell_values 1 in
    setitem cell_values 1 (strip (replace name (lit "(Retired)") []))
  else Ok cell_values.

(** [if ':' in cell_values[1]: ...] *)
Definition info_step (cell_values : list str) : result (list str) :=
  let* name := getitem cell_values 1 in
  if contains (lit ":") name then
    let* name := getitem cell_values 1 in
    let* parts := split name (lit ":") in
    let* last_part := getitem parts (-1) in
    let* cell_values := setitem cell_values 3 (strip last_part) in
    let* name := getitem cell_values 1 in
    let* parts := split name (lit ":") in
    let* first_part := getitem parts 0 in
    setitem cell_values 1 (strip first_part)
  else Ok cell_values.

Definition parse_row (column_names : list str) (row : Element)
  : result (gmap str str) :=
  let cell_values := row_cells row in
  let* cell_values := setitem cell_values 3 [] in
  let cell_values := cell_values ++ [[]] in
  let* cell_values := retired_step cell_values in
  let* cell_values := info_step cell_values in
  Ok (dict_of (zip column_names cell_values)).

Definition column_names : list str :=
  [lit "UID Value"; lit "UID Name"; lit "UID Type"; lit "UID Info";
   lit "Retired"].

(** ** The table locator *)

(** The loop over the tables of the book: the first table whose caption
    has the text [caption] is parsed and its rows are returned; when the
    loop ends without a match the function returns [None]. *)
Fixpoint for_tables (tables : list Element) (caption : str)
  : result (option (list (gmap str str))) :=
  match tables with
  | [] => Ok None
  | table :: rest =>
      match find (br ++ lit "caption") table with
      | None => Raise AttributeError
      | Some c =>
          if bool_decide (text c = Some caption) then
            match find (br ++ lit "tbody") table with
            | None => Raise AttributeError
            | Some tbody =>
                let* row_attrs := mapM (parse_row column_names)
                                       (iter (br ++ lit "tr") tbody) in
                Ok (Some row_attrs)
            end
          else for_tables rest caption
      end
  end.

Definition parse_docbook_table (book_root : Element) (caption : str)
  : result (option (list (gmap str str))) :=
  for_tables (iter (br ++ lit "table") book_root) caption.

(** ** String formatting *)

Definition nl : str := [10].

(** [sep.join(items)] *)
Fixpoint join (sep : str) (items : list str) : str :=
  match items with
  | [] => []
  | [x] => x
  | x :: rest => x ++ sep ++ join sep rest
  end.

(** [template % args] for the conversions [%s] and [%d] (an argument is
    given as the text it is converted to) and for [%%]. *)
Fixpoint percent (template : str) (args : list str) : result str :=
  match template with
  | [] =>
      match args with
      | [] => Ok []
      | _ :: _ => Raise TypeError
      end
  | c :: t =>
      if c =? 37 then
        match t with
        | d :: t' =>
            if (d =? 115) || (d =? 100) then
              match args with
              | a :: args' => let* r := percent t' args' in Ok (a ++ r)
              | [] => Raise TypeError
              end
            else if d =? 37 then let* r := percent t' args in Ok (37 :: r)
            else Raise ValueError
        | [] => Raise ValueError
        end
      else let* r := percent t args in Ok (c :: r)
  end.

(** [str.format] with keyword arguments [kwargs], for replacement fields
    that are plain keys; a doubled brace stands for one brace.  [field] is
    the key being read, if any. *)
Fixpoint format_from (kwargs : gmap str str) (field : option str)
    (template : str) : result str :=
  match template with
  | [] =>
      match field with
      | None => Ok []
      | Some _ => Raise ValueError
      end
  | c :: t =>
      match field with
      | Some key =>
          if c =? 125 then
            let* v := dict_get kwargs key in
            let* r := format_from kwargs None t in
            Ok (v ++ r)
          else format_from kwargs (Some (key ++ [c])) t
      | None =>
          if c =? 123 then
            match t with
            | d :: t' =>
                if d =? 123
                then let* r := format_from kwargs None t' in Ok (123 :: r)
                else format_from kwargs (Some []) t
            | [] => Raise ValueError
            end
          else if c =? 125 then
            match t with
            | d :: t' =>
                if d =? 125
                then let* r := format_from kwargs None t' in Ok (125 :: r)
                else Raise ValueError
            | [] => Raise ValueError
            end
          else let* r := format_from kwargs None t in Ok (c :: r)
      end
  end.

Definition format (template : str) (kwargs : gmap str str) : result str :=
  format_from kwargs None template.

(** The decimal text of a natural number, as [%d] prints it. *)
Definition decimal (n : nat) : str :=
  lit (NilEmpty.string_of_uint (Nat.to_uint n)).

(** ** Files and standard output *)

(** The files of the working directory, by name, and the text printed so
    far.  A file object is modelled by the name it was opened with. *)
Record world := World { fs : gmap str str; stdout : str }.

Definition io (A : Type) : Type := world -> world * result A.

Definition io_bind {A B} (m : io A) (f : A -> io B) : io B :=
  fun w =>
    match m w with
    | (w', Ok a) => f a w'
    | (w', Raise e) => (w', Raise e)
    end.

Notation "'let!' x ':=' m 'in' k" := (io_bind m (fun x => k))
  (at level 10, x name, m at level 100, k at level 200).

Definition lift {A} (r : result A) : io A := fun w => (w, r).

(** [open(name, "w")]: the file is created, or emptied when it exists. *)
Definition open_w (name : str) : io str :=
  fun w => (World (<[name := []]> (fs w)) (stdout w), Ok name).

(** [fp.write(s)] *)
Definition write (fp : str) (s : str) : io unit :=
  fun w =>
    match fs w !! fp with
    | Some old => (World (<[fp := old ++ s]> (fs w)) (stdout w), Ok tt)
    | None => (w, Raise ValueError)
    end.

(** [fp.close()] *)
Definition close (fp : str) : io unit := fun w => (w, Ok tt).

(** [print(s)] *)
Definition print (s : str) : io unit :=
  fun w => (World (fs w) (stdout w ++ s ++ nl), Ok tt).

(** ** The serialiser *)

Definition PYDICOM_DICT_FILENAME : str := lit "../../pydicom/_uid_dict.py".
Definition DICT_NAME : str := lit "UID_dictionary".

Definition write_dict (fp : str) (dict_name : str)
    (attributes : list (gmap str str)) : io unit :=
  let uid_entry := lit "('{UID Name}', '{UID Type}', '{UID Info}', '{Retired}')" in
  let! entry_format := lift (percent (lit "'{UID Value}': %s") [uid_entry]) in
  let! opening := lift (percent (nl ++ lit "%s = {" ++ nl ++ lit "    ") [dict_name]) in
  let! _ := write fp opening in
  let! entries := lift (mapM (format entry_format) attributes) in
  let! _ := write fp (join (lit ",  # noqa" ++ nl ++ lit "    ") entries) in
  write fp (lit "  # noqa" ++ nl ++ lit "}" ++ nl).

(** ** The normalisation pass and the script *)

(** The body of [for attr in attrs: ...]. *)
Definition normalise (attr : gmap str str) : result (gmap str str) :=
  let* name := dict_get attr (lit "UID Name") in
  let attr := <[lit "UID Name" := replace name (lit "&") (lit "and")]> attr in
  let* value := dict_get attr (lit "UID Value") in
  Ok (<[lit "UID Value" := replace value soft_hyphen []]> attr).

(** [attrs += found] *)
Definition iadd {A} (attrs : list A) (found : option (list A))
  : result (list A) :=
  match found with
  | Some more => Ok (attrs ++ more)
  | None => Raise TypeError
  end.

(** The module-level statements, from the parsed document [root] on;
    [script_name] is [os.path.basename(__file__)]. *)
Definition main (script_name : str) (root : Element) : io unit :=
  let attrs := [] in
  let! found := lift (parse_docbook_table root (lit "UID Values")) in
  let! attrs := lift (iadd attrs found) in
  let! attrs := lift (mapM normalise attrs) in
  let! py_file := open_w PYDICOM_DICT_FILENAME in
  let! header :=
    lift (percent ([34; 34; 34] ++ lit "DICOM UID dictionary auto-generated by %s"
                   ++ [34; 34; 34] ++ nl) [script_name]) in
  let! _ := write py_file header in
  let! _ := write_dict py_file DICT_NAME attrs in
  let! _ := close py_file in
  let! message := lift (percent (lit "Finished, wrote %d UIDs")
                                [decimal (length attrs)]) in
  print message.

(** ** Vocabulary of the specification *)

(** The part of [s] before the first [c]. *)
Fixpoint before_first (c : N) (s : str) : str :=
  match s with
  | [] => []
  | x :: s' => if x =? c then [] else x :: before_first c s'
  end.

(** The part of [s] after the first [c]. *)
Fixpoint after_first (c : N) (s : str) : str :=
  match s with
  | [] => []
  | x :: s' => if x =? c then s' else after_first c s'
  end.

(** The part of [s] after the last [c]. *)
Definition after_last (c : N) (s : str) : str :=
  rev (before_first c (rev s)).

Definition colon : N := 58.

(** The name as the retired detection leaves it. *)
Definition unretired (name : str) : str :=
  if contains (lit "(Retired)") name
  then strip (replace name (lit "(Retired)") [])
  else name.

(** The name and the info that the info extraction derives from a name. *)
Definition name_part (name : str) : str :=
  if contains [colon] name then strip (before_first colon name) else name.

Definition info_part (name : str) : str :=
  if contains [colon] name then strip (after_last colon name) else [].

(** The record of a row whose cells are [a], [name], [c], one more and
    [rest]. *)
Definition record (a name c : str) (rest : list str) : gmap str str :=
  dict_of (zip column_names
             [a; name_part (unretired name); c; info_part (unretired name);
              if contains (lit "(Retired)") name then lit "Retired"
              else hd [] rest]).

(** A field of a record; the empty string when the key is missing. *)
Definition field (attr : gmap str str) (key : string) : str :=
  default [] (attr !! lit key).

(** A record that has the five columns. *)
Definition complete (attr : gmap str str) : Prop :=
  Forall (fun key => is_Some (attr !! key)) column_names.

(** One entry of the dictionary, as the specification words it:
    ['<value>': ('<name>', '<kind>', '<info>', '<retired>')]. *)
Definition entry_text (attr : gmap str str) : str :=
  lit "'" ++ field attr "UID Value" ++ lit "': ('" ++
  field attr "UID Name" ++ lit "', '" ++ field attr "UID Type" ++
  lit "', '" ++ field attr "UID Info" ++ lit "', '" ++
  field attr "Retired" ++ lit "')".

(** The text of a dictionary: the opening line, the entries separated by
    a comma, the lint marker and a line break, and the closing line. *)
Definition dict_text (dict_name : str) (attrs : list (gmap str str)) : str :=
  nl ++ dict_name ++ lit " = {" ++ nl ++ lit "    " ++
  join (lit ",  # noqa" ++ nl ++ lit "    ") (List.map entry_text attrs) ++
  lit "  # noqa" ++ nl ++ lit "}" ++ nl.

(** The entries of a list of records, written one after the other in
    the order of the list: the entry of the first record, then, for each
    later record in turn, a comma, the lint marker, a line break, the
    indentation and its entry. *)
Definition entries_in_order (attrs : list (gmap str str)) : str :=
  match attrs with
  | [] => []
  | first :: others =>
      entry_text first ++
      flat_map (fun attr => lit ",  # noqa" ++ nl ++ lit "    " ++ entry_text attr)
               others
  end.

(** What the normalisation pass does to one record, character by
    character. *)
Definition ampersand_to_and (name : str) : str :=
  flat_map (fun c => if c =? 38 then lit "and" else [c]) name.

Definition without_soft_hyphen (value : str) : str :=
  List.filter (fun c => negb (c =? 173)) value.

Definition normalised (attr attr' : gmap str str) : Prop :=
  attr' !! lit "UID Name" = ampersand_to_and <$> attr !! lit "UID Name" /\
  attr' !! lit "UID Value" = without_soft_hyphen <$> attr !! lit "UID Value" /\
  forall key, key <> lit "UID Name" -> key <> lit "UID Value" ->
              attr' !! key = attr !! key.

(** A table that the loop passes over: it has a caption, with another
    text. *)
Definition passed (caption : str) (table : Element) : Prop :=
  exists c, find (br ++ lit "caption") table = Some c /\
            text c <> Some caption.

(** The template that [write_dict] builds for an entry. *)
Definition entry_format : str :=
  lit "'{UID Value}': ('{UID Name}', '{UID Type}', '{UID Info}', '{Retired}')".

(** Text without braces, and a key that can stand between braces. *)
Definition plain_text (s : str) : bool :=
  forallb (fun c => negb (c =? 123) && negb (c =? 125)) s.

Definition field_key (key : str) : bool :=
  match key with
  | [] => false
  | c :: _ => negb (c =? 123) && forallb (fun c => negb (c =? 125)) key
  end.

(** The first line of the generated file and the line printed at the
    end. *)
Definition header_text (script_name : str) : str :=
  [34; 34; 34] ++ lit "DICOM UID dictionary auto-generated by " ++
  script_name ++ [34; 34; 34] ++ nl.

Definition finished_text (count : nat) : str :=
  lit "Finished, wrote " ++ decimal count ++ lit " UIDs".

(** ** Example documents *)

Local Open Scope string_scope.

(** [<td><para>s</para></td>] *)
Definition text_cell (s : str) : Element :=
  Elem (br ++ lit "td") None [Elem (br ++ lit "para") (Some s) []].

Definition para_cell (s : string) : Element := text_cell (lit s).

(** No file and nothing printed. *)
Definition empty_world : world := World ∅ [].

(** [<tr>] with one plain cell for each string. *)
Definition table_row (cells : list string) : Element :=
  Elem (br ++ lit "tr") None (List.map para_cell cells).

(** [<table><caption>caption</caption><tbody>rows</tbody></table>] *)
Definition captioned_table (caption : string) (rows : list Element) : Element :=
  Elem (br ++ lit "table") None
    [Elem (br ++ lit "caption") (Some (lit caption)) [];
     Elem (br ++ lit "tbody") None rows].

Definition book (content : list Element) : Element :=
  Elem (br ++ lit "book") None content.

Local Close Scope string_scope.

(** ** Reading the dictionary back *)

(** The generated text is meant to be read by the Python interpreter as
    an assignment of a dictionary display.  [read_dict] is a reader for
    that fragment of Python: names, single-quoted string literals with
    their backslash escapes, the punctuation of a dictionary of tuples,
    comments and white space.  Numeric and named escapes (octal, [\x],
    [\u], [\U], [\N]) are outside the fragment and are refused. *)

Inductive token :=
| TName (s : str)
| TString (s : str)
| TAssign | TLBrace | TRBrace | TLParen | TRParen | TComma | TColon.

Inductive lex_state :=
| Between
| Comment
| Name (acc : str)
| Quoted (acc : str)
| Escaped (acc : str).

Definition name_start (c : N) : bool :=
  ((65 <=? c) && (c <=? 90)) || ((97 <=? c) && (c <=? 122)) || (c =? 95).

Definition name_char (c : N) : bool :=
  name_start c || ((48 <=? c) && (c <=? 57)).

Definition punctuation (c : N) : option token :=
  if c =? 61 then Some TAssign
  else if c =? 123 then Some TLBrace
  else if c =? 125 then Some TRBrace
  else if c =? 40 then Some TLParen
  else if c =? 41 then Some TRParen
  else if c =? 44 then Some TComma
  else if c =? 58 then Some TColon
  else None.

Definition line_break (c : N) : bool := (c =? 10) || (c =? 13).

Definition lex_between (c : N) : option (list token * lex_state) :=
  if (c =? 32) || (c =? 9) || (c =? 12) || line_break c then Some ([], Between)
  else if c =? 35 then Some ([], Comment)
  else if c =? 39 then Some ([], Quoted [])
  else if name_start c then Some ([], Name [c])
  else
    match punctuation c with
    | Some t => Some ([t], Between)
    | None => None
    end.

(** What a backslash followed by [c] stands for in a string literal; an
    unknown escape keeps the backslash, and the escapes outside the
    fragment are refused. *)
Definition unescape (c : N) : option str :=
  if c =? 10 then Some []
  else if c =? 92 then Some [92]
  else if c =? 39 then Some [39]
  else if c =? 34 then Some [34]
  else if c =? 97 then Some [7]
  else if c =? 98 then Some [8]
  else if c =? 102 then Some [12]
  else if c =? 110 then Some [10]
  else if c =? 114 then Some [13]
  else if c =? 116 then Some [9]
  else if c =? 118 then Some [11]
  else if ((48 <=? c) && (c <=? 55)) || (c =? 120) || (c =? 117) ||
          (c =? 85) || (c =? 78) || (c =? 13)
  then None
  else Some [92; c].

Definition lex_step (st : lex_state) (c : N)
  : option (list token * lex_state) :=
  match st with
  | Between => lex_between c
  | Comment => if line_break c then Some ([], Between) else Some ([], Comment)
  | Name acc =>
      if name_char c then Some ([], Name (acc ++ [c]))
      else
        match lex_between c with
        | Some (ts, st') => Some (TName acc :: ts, st')
        | None => None
        end
  | Quoted acc =>
      if c =? 39 then Some ([TString acc], Between)
      else if c =? 92 then Some ([], Escaped acc)
      else if line_break c then None
      else Some ([], Quoted (acc ++ [c]))
  | Escaped acc =>
      match unescape c with
      | Some s => Some ([], Quoted (acc ++ s))
      | None => None
      end
  end.

(** The tokens of a text read from state [st], and the state reached. *)
Fixpoint lex_run (st : lex_state) (s : str)
  : option (list token * lex_state) :=
  match s with
  | [] => Some ([], st)
  | c :: s' =>
      match lex_step st c with
      | Some (ts, st') =>
          match lex_run st' s' with
          | Some (ts', st'') => Some (ts ++ ts', st'')
          | None => None
          end
      | None => None
      end
  end.

(** The tokens of a whole text: a string literal must be closed. *)
Definition lex (s : str) : option (list token) :=
  match lex_run Between s with
  | Some (ts, Between) | Some (ts, Comment) => Some ts
  | Some (ts, Name acc) => Some (ts ++ [TName acc])
  | Some (_, Quoted _) | Some (_, Escaped _) | None => None
  end.

Abbreviation uid_tuple := (str * str * str * str)%type.

(** The entries [key: (a, b, c, d)] of a dictionary display, up to the
    closing brace. *)
Fixpoint parse_entries (ts : list token) : option (list (str * uid_tuple)) :=
  match ts with
  | [TRBrace] => Some []
  | TString k :: TColon :: TLParen :: TString a :: TComma :: TString b ::
    TComma :: TString c :: TComma :: TString d :: TRParen :: rest =>
      match rest with
      | [TRBrace] => Some [(k, (a, b, c, d))]
      | TComma :: rest' =>
          match parse_entries rest' with
          | Some es => Some ((k, (a, b, c, d)) :: es)
          | None => None
          end
      | _ => None
      end
  | _ => None
  end.

(** [name = { entries }] *)
Definition parse_assignment (ts : list token)
  : option (str * list (str * uid_tuple)) :=
  match ts with
  | TName name :: TAssign :: TLBrace :: rest =>
      match parse_entries rest with
      | Some es => Some (name, es)
      | None => None
      end
  | _ => None
  end.

(** The name and the value of the dictionary that a text assigns; in a
    dictionary display a later entry overwrites an earlier one with the
    same key. *)
Definition read_dict (source : str) : option (str * gmap str uid_tuple) :=
  match lex source with
  | Some ts =>
      match parse_assignment ts with
      | Some (name, es) => Some (name, dict_of es)
      | None => None
      end
  | None => None
  end.

(** The records of the list as a mapping keyed by value. *)
Definition tuple_of (attr : gmap str str) : uid_tuple :=
  (field attr "UID Name", field attr "UID Type", field attr "UID Info",
   field attr "Retired").

Definition keyed_by_value (attrs : list (gmap str str)) : gmap str uid_tuple :=
  dict_of (List.map (fun attr => (field attr "UID Value", tuple_of attr)) attrs).

Definition separator : str := lit ",  # noqa" ++ nl ++ lit "    ".

(** A string with no single quote outside a backslash escape. *)
Fixpoint no_bare_quote (s : str) : bool :=
  match s with
  | [] => true
  | c :: s' =>
      if c =? 39 then false
      else if c =? 92 then
        match s' with
        | [] => true
        | _ :: s'' => no_bare_quote s''
        end
      else no_bare_quote s'
  end.

(** A string with no single quote, no backslash and no line break. *)
Definition plain (s : str) : bool :=
  forallb (fun c => negb ((c =? 39) || (c =? 92) || line_break c)) s.

Definition fields_of (attr : gmap str str) : list str :=
  List.map (fun key => default [] (attr !! key)) column_names.

(** A complete record whose five fields are plain. *)
Definition plain_record (attr : gmap str str) : Prop :=
  complete attr /\ forallb plain (fields_of attr) = true.

(** The entry of the mapping that a record stands for. *)
Definition key_value (attr : gmap str str) : str * uid_tuple :=
  (field attr "UID Value", tuple_of attr).

(** The tokens of an entry and of a list of entries. *)
Definition entry_tokens (attr : gmap str str) : list token :=
  [TString (field attr "UID Value"); TColon; TLParen;
   TString (field attr "UID Name"); TComma;
   TString (field attr "UID Type"); TComma;
   TString (field attr "UID Info"); TComma;
   TString (field attr "Retired"); TRParen].

Fixpoint entries_tokens (attrs : list (gmap str str)) : list token :=
  match attrs with
  | [] => []
  | [attr] => entry_tokens attr
  | attr :: rest => entry_tokens attr ++ TComma :: entries_tokens rest
  end.

(** * Properties *)

(** ** Indexing *)

Section Indexing.
Context {A : Type}.
Implicit Types (l : list A) (n : nat) (x : A).

Lemma position_nat l n :
  position l (Z.of_nat n) = if decide (n < length l)%nat then Some n else None.
Proof.
  unfold position.
  destruct (Z.ltb_spec (Z.of_nat n) 0) as [H|H]; [lia|].
  destruct (Z.leb_spec 0 (Z.of_nat n)) as [_|?]; [|lia].
  destruct (Z.ltb_spec (Z.of_nat n) (Z.of_nat (length l))) as [H1|H1];
    case_decide; simpl; try lia.
  - by rewrite Nat2Z.id.
  - done.
Qed.

Lemma getitem_nat l n x : l !! n = Some x -> getitem l (Z.of_nat n) = Ok x.
Proof.
  intros H. unfold getitem. rewrite position_nat.
  apply lookup_lt_Some in H as Hlt.
  case_decide; [|lia]. by rewrite H.
Qed.

Lemma setitem_nat l n x :
  (n < length l)%nat -> setitem l (Z.of_nat n) x = Ok (<[n := x]> l).
Proof.
  intros H. unfold setitem. rewrite position_nat. by case_decide.
Qed.

Lemma setitem_short l n x :
  (length l <= n)%nat -> setitem l (Z.of_nat n) x = Raise IndexError.
Proof.
  intros H. unfold setitem. rewrite position_nat. case_decide; [lia|done].
Qed.

Lemma getitem_minus_one l :
  getitem l (-1) =
    match last l with
    | Some x => Ok x
    | None => Raise IndexError
    end.
Proof.
  unfold getitem, position.
  destruct l as [|a l] using rev_ind; [done|].
  rewrite last_snoc, length_app. simpl.
  destruct (Z.ltb_spec (-1) 0) as [_|?]; [|lia].
  destruct (Z.leb_spec 0 (-1 + Z.of_nat (length l + 1))) as [_|?]; [|lia].
  destruct (Z.ltb_spec (-1 + Z.of_nat (length l + 1))
              (Z.of_nat (length l + 1))) as [_|?]; [|lia].
  simpl.
  replace (Z.to_nat (-1 + Z.of_nat (length l + 1))) with (length l) by lia.
  by rewrite list_lookup_middle.
Qed.
End Indexing.

(** ** Strings *)

Lemma startswith_char c x s : startswith (x :: s) [c] = (x =? c).
Proof.
  simpl. destruct s; rewrite andb_true_r; apply N.eqb_sym.
Qed.

Lemma contains_char c s : contains [c] s = existsb (fun x => x =? c) s.
Proof.
  induction s as [|x s IH]; [done|].
  change (contains [c] (x :: s))
    with (startswith (x :: s) [c] || contains [c] s).
  by rewrite startswith_char, IH.
Qed.

Lemma replace_char s c new :
  replace s [c] new = flat_map (fun x => if x =? c then new else [x]) s.
Proof.
  unfold replace.
  induction s as [|x s IH]; [done|].
  change (replace_from [c] new 0 (x :: s))
    with (if startswith (x :: s) [c]
          then new ++ replace_from [c] new 0 s
          else x :: replace_from [c] new 0 s).
  rewrite startswith_char, IH. simpl. by destruct (x =? c).
Qed.

Lemma split_from_nonempty sep skip cur s : split_from sep skip cur s <> [].
Proof.
  revert skip cur.
  induction s as [|x s IH]; intros skip cur; cbn [split_from]; [done|].
  destruct skip; [|apply IH].
  destruct (startswith (x :: s) sep); [done|apply IH].
Qed.

Lemma split_char_unfold c cur x s :
  split_from [c] 0 cur (x :: s) =
    if x =? c then cur :: split_from [c] 0 [] s
    else split_from [c] 0 (cur ++ [x]) s.
Proof.
  change (split_from [c] 0 cur (x :: s))
    with (if startswith (x :: s) [c]
          then cur :: split_from [c] 0 [] s
          else split_from [c] 0 (cur ++ [x]) s).
  by rewrite startswith_char.
Qed.

(** The first segment of a split is what precedes the first separator. *)
Lemma split_char_head c s cur :
  head (split_from [c] 0 cur s) = Some (cur ++ before_first c s).
Proof.
  revert cur. induction s as [|x s IH]; intros cur.
  - simpl. by rewrite app_nil_r.
  - rewrite split_char_unfold. simpl. destruct (x =? c).
    + simpl. by rewrite app_nil_r.
    + rewrite IH. by rewrite <- app_assoc.
Qed.

Lemma before_first_app_in c s t :
  existsb (fun x => x =? c) s = true ->
  before_first c (s ++ t) = before_first c s.
Proof.
  induction s as [|x s IH]; simpl; [done|].
  destruct (x =? c); simpl; [done|]. intros H. by rewrite IH.
Qed.

Lemma before_first_app_notin c s t :
  existsb (fun x => x =? c) s = false ->
  before_first c (s ++ t) = s ++ before_first c t.
Proof.
  induction s as [|x s IH]; simpl; [done|].
  destruct (x =? c); simpl; [done|]. intros H. by rewrite IH.
Qed.

Lemma existsb_rev {A} (f : A -> bool) l : existsb f (rev l) = existsb f l.
Proof.
  induction l as [|x l IH]; simpl; [done|].
  rewrite existsb_app, IH. simpl. rewrite orb_false_r. apply orb_comm.
Qed.

Lemma after_last_cons c x s :
  after_last c (x :: s) =
    if existsb (fun y => y =? c) s then after_last c s
    else if x =? c then s else x :: s.
Proof.
  unfold after_last. simpl.
  destruct (existsb (fun y => y =? c) s) eqn:E.
  - rewrite before_first_app_in; [done|]. by rewrite existsb_rev.
  - rewrite before_first_app_notin by (by rewrite existsb_rev).
    simpl. destruct (x =? c).
    + by rewrite app_nil_r, rev_involutive.
    + by rewrite rev_app_distr, rev_involutive.
Qed.

(** The last segment of a split is what follows the last separator. *)
Lemma split_char_last c s cur :
  last (split_from [c] 0 cur s) =
    Some (if existsb (fun x => x =? c) s then after_last c s else cur ++ s).
Proof.
  revert cur. induction s as [|x s IH]; intros cur.
  - simpl. by rewrite app_nil_r.
  - rewrite split_char_unfold, after_last_cons. simpl.
    destruct (x =? c) eqn:E; simpl.
    + pose proof (split_from_nonempty [c] 0 [] s) as Hne.
      destruct (split_from [c] 0 [] s) as [|y l] eqn:El; [done|].
      rewrite last_cons_cons, <- El, IH.
      by destruct (existsb _ s).
    + rewrite IH. destruct (existsb _ s); [done|]. by rewrite <- app_assoc.
Qed.

(** A character that is neither white space nor part of the replaced
    text survives [strip] and [replace]. *)
Lemma existsb_lstrip c s :
  isspace c = false ->
  existsb (fun x => x =? c) (lstrip s) = existsb (fun x => x =? c) s.
Proof.
  intros Hc. induction s as [|x s IH]; [done|].
  cbn [lstrip]. destruct (isspace x) eqn:Hx; [|done].
  rewrite IH. cbn [existsb].
  destruct (N.eqb_spec x c) as [->|_]; [congruence|done].
Qed.

Lemma existsb_strip c s :
  isspace c = false ->
  existsb (fun x => x =? c) (strip s) = existsb (fun x => x =? c) s.
Proof.
  intros Hc. unfold strip, rstrip.
  by rewrite existsb_rev, existsb_lstrip, existsb_rev, existsb_lstrip.
Qed.

Lemma existsb_replace_from c o old new s tl :
  existsb (fun x => x =? c) (o :: old) = false ->
  existsb (fun x => x =? c) new = false ->
  existsb (fun x => x =? c) tl = false ->
  startswith s tl = true ->
  existsb (fun x => x =? c) (replace_from (o :: old) new (length tl) s)
  = existsb (fun x => x =? c) s.
Proof.
  intros Hold Hnew. revert tl.
  induction s as [|x s IH]; intros tl Htl Hs; [by destruct tl|].
  destruct tl as [|y tl].
  - cbn [length replace_from].
    destruct (startswith (x :: s) (o :: old)) eqn:Hm.
    + cbn [startswith] in Hm. apply andb_true_iff in Hm as [Hx Hm].
      apply N.eqb_eq in Hx as <-.
      cbn [existsb] in Hold. apply orb_false_iff in Hold as [Ho Hold'].
      rewrite existsb_app, Hnew. cbn [existsb orb]. rewrite Ho.
      replace (S (length old) - 1)%nat with (length old) by lia.
      cbn [orb]. by apply IH.
    + cbn [existsb]. f_equal. apply (IH []); [done|by destruct s].
  - cbn [startswith] in Hs. apply andb_true_iff in Hs as [Hx Hs].
    apply N.eqb_eq in Hx as <-.
    cbn [existsb] in Htl. apply orb_false_iff in Htl as [Hy Htl].
    cbn [length replace_from existsb]. rewrite Hy. by apply IH.
Qed.

(** ** The row extractor *)

Lemma retired_step_spec a name c d e rest :
  retired_step (a :: name :: c :: d :: e :: rest) =
    Ok (a :: unretired name :: c :: d ::
        (if contains (lit "(Retired)") name then lit "Retired" else e) :: rest).
Proof.
  unfold retired_step, unretired.
  change 1%Z with (Z.of_nat 1). change 4%Z with (Z.of_nat 4).
  rewrite (getitem_nat _ 1 name) by done. cbn [bind].
  destruct (contains (lit "(Retired)") name); [|done].
  rewrite setitem_nat by (simpl; lia). cbn [bind].
  rewrite (getitem_nat _ 1 name) by done. cbn [bind].
  by rewrite setitem_nat by (simpl; lia).
Qed.

Lemma info_step_spec a name c d e rest :
  info_step (a :: name :: c :: d :: e :: rest) =
    Ok (a :: name_part name :: c ::
        (if contains [colon] name then info_part name else d) :: e :: rest).
Proof.
  unfold info_step, name_part, info_part.
  change (lit ":") with [colon].
  change 1%Z with (Z.of_nat 1). change 3%Z with (Z.of_nat 3).
  change 0%Z with (Z.of_nat 0).
  rewrite (getitem_nat _ 1 name) by done. cbn [bind].
  destruct (contains [colon] name) eqn:Hc; [|done].
  cbn [bind split].
  rewrite getitem_minus_one, split_char_last, <- contains_char, Hc.
  cbn [bind]. rewrite setitem_nat by (simpl; lia). cbn [bind].
  rewrite (getitem_nat _ 1 name) by done. cbn [bind split].
  rewrite (getitem_nat _ 0 (before_first colon name))
    by (rewrite <- head_lookup; apply split_char_head).
  cbn [bind]. by rewrite setitem_nat by (simpl; lia).
Qed.

Lemma parse_row_spec row a name c d rest :
  row_cells row = a :: name :: c :: d :: rest ->
  parse_row column_names row = Ok (record a name c rest).
Proof.
  intros H. unfold parse_row. rewrite H.
  change 3%Z with (Z.of_nat 3).
  rewrite setitem_nat by (simpl; lia). cbn [bind].
  assert (exists rest', rest ++ [[]] = hd [] rest :: rest') as [rest' Hr].
  { destruct rest; simpl; eauto. }
  change (<[3%nat:=[]]> (a :: name :: c :: d :: rest) ++ [[]])
    with (a :: name :: c :: [] :: (rest ++ [[]])).
  rewrite Hr, retired_step_spec. cbn [bind].
  rewrite info_step_spec. cbn [bind].
  unfold record, info_part.
  by destruct (contains [colon] (unretired name)).
Qed.

Lemma parse_row_short row :
  (length (row_cells row) < 4)%nat ->
  parse_row column_names row = Raise IndexError.
Proof.
  intros H. unfold parse_row. change 3%Z with (Z.of_nat 3).
  by rewrite setitem_short by lia.
Qed.

Lemma four_cells {A} (l : list A) :
  (4 <= length l)%nat -> exists a b c d rest, l = a :: b :: c :: d :: rest.
Proof.
  destruct l as [|a [|b [|c [|d rest]]]]; simpl; try lia. eauto 6.
Qed.

Lemma record_fields a name c rest :
  let r := record a name c rest in
  r !! lit "UID Value" = Some a /\
  r !! lit "UID Name" = Some (name_part (unretired name)) /\
  r !! lit "UID Type" = Some c /\
  r !! lit "UID Info" = Some (info_part (unretired name)) /\
  r !! lit "Retired" =
    Some (if contains (lit "(Retired)") name then lit "Retired" else hd [] rest).
Proof.
  unfold record, dict_of, column_names. cbn [zip zip_with foldl fst snd].
  repeat split.
  all: repeat (rewrite lookup_insert_ne by (by vm_compute));
    apply lookup_insert_eq.
Qed.

Lemma record_dom a name c rest :
  dom (record a name c rest) = list_to_set column_names.
Proof.
  unfold record, dict_of, column_names. cbn [zip zip_with foldl fst snd].
  rewrite !dom_insert_L, dom_empty_L. cbn [list_to_set]. set_solver.
Qed.

Lemma record_complete a name c rest : complete (record a name c rest).
Proof.
  unfold complete. apply Forall_forall. intros k Hk.
  apply elem_of_dom. rewrite record_dom. by apply elem_of_list_to_set.
Qed.

Lemma unretired_colon name :
  contains [colon] (unretired name) = contains [colon] name.
Proof.
  unfold unretired.
  destruct (contains (lit "(Retired)") name); [|done].
  rewrite !contains_char, existsb_strip by done.
  change (replace name (lit "(Retired)") [])
    with (replace_from (40 :: lit "Retired)") [] (length (@nil N)) name).
  apply existsb_replace_from;
    [by vm_compute|done|done|by destruct name].
Qed.

(** C1, as the code has it: when the name cell of a row contains a colon,
    the info field of the record is the trimmed part after the LAST colon
    of the name (the name as the retired detection leaves it), and the
    name field is the trimmed part before its first colon. *)
Theorem info_extraction row a name c d rest :
  row_cells row = a :: name :: c :: d :: rest ->
  contains [colon] name = true ->
  exists r, parse_row column_names row = Ok r /\
    r !! lit "UID Info" = Some (strip (after_last colon (unretired name))) /\
    r !! lit "UID Name" = Some (strip (before_first colon (unretired name))).
Proof.
  intros Hrow Hc. exists (record a name c rest).
  split; [exact (parse_row_spec row a name c d rest Hrow)|].
  destruct (record_fields a name c rest) as (_ & Hn & _ & Hi & _).
  rewrite <- unretired_colon in Hc.
  unfold name_part, info_part in *. rewrite Hc in *. done.
Qed.

Lemma info_extraction_witness :
  exists r,
    parse_row column_names
      (table_row ["1.2.840.10008.1.2.1";
                  "Explicit VR Little Endian: Default Transfer Syntax";
                  "Transfer Syntax"; "PS 3.5"]%string) = Ok r /\
    r !! lit "UID Info" = Some (lit "Default Transfer Syntax") /\
    r !! lit "UID Name" = Some (lit "Explicit VR Little Endian").
Proof.
  exact (info_extraction
           (table_row ["1.2.840.10008.1.2.1";
                       "Explicit VR Little Endian: Default Transfer Syntax";
                       "Transfer Syntax"; "PS 3.5"]%string)
           (lit "1.2.840.10008.1.2.1")
           (lit "Explicit VR Little Endian: Default Transfer Syntax")
           (lit "Transfer Syntax") (lit "PS 3.5") [] eq_refl eq_refl).
Defined.

(** C1 as stated fails on a name with two colons: the info field of
    ["a:b:c"] is ["c"], not the part ["b:c"] after the first colon. *)
Lemma info_after_first_colon_fails :
  let row := table_row ["1.2.3"; "a:b:c"; "Transfer Syntax"; "PS 3.5"]%string in
  let name := unretired (lit "a:b:c") in
  name = lit "a:b:c" /\ contains [colon] name = true /\
  strip (after_first colon name) = lit "b:c" /\
  exists r, parse_row column_names row = Ok r /\
    r !! lit "UID Info" = Some (lit "c") /\
    r !! lit "UID Name" = Some (lit "a") /\
    r !! lit "UID Info" <> Some (strip (after_first colon name)).
Proof.
  cbv zeta. split; [by vm_compute|].
  split; [by vm_compute|]. split; [by vm_compute|].
  exists (record (lit "1.2.3") (lit "a:b:c") (lit "Transfer Syntax") []).
  destruct (record_fields (lit "1.2.3") (lit "a:b:c") (lit "Transfer Syntax") [])
    as (_ & Hn & _ & Hi & _).
  split; [apply (parse_row_spec _ _ _ _ (lit "PS 3.5")); by vm_compute|].
  rewrite Hi, Hn. split; [by vm_compute|]. split; [by vm_compute|].
  by vm_compute.
Qed.

Lemma column_names_NoDup : NoDup column_names.
Proof.
  apply (bool_decide_unpack _). by vm_compute.
Qed.

Lemma record_size a name c rest : size (record a name c rest) = 5%nat.
Proof.
  rewrite <- size_dom, record_dom, size_list_to_set; [done|].
  apply column_names_NoDup.
Qed.

(** C2, as the code has it: a row with fewer than four cell values makes
    the extractor raise [IndexError] and no record is produced; a row with
    four or more cell values yields a record with the five columns. *)
Theorem row_shape row :
  ((length (row_cells row) < 4)%nat ->
   parse_row column_names row = Raise IndexError) /\
  ((4 <= length (row_cells row))%nat ->
   exists r, parse_row column_names row = Ok r /\
             dom r = list_to_set column_names).
Proof.
  split; [apply parse_row_short|].
  intros H. apply four_cells in H as (a & name & c & d & rest & H).
  exists (record a name c rest). split; [by eapply parse_row_spec|].
  apply record_dom.
Qed.

Lemma row_shape_witness :
  parse_row column_names (table_row ["1.2.3"; "Name"; "Kind"]%string)
    = Raise IndexError /\
  exists r,
    parse_row column_names
      (table_row ["1.2.3"; "Name"; "Kind"; "PS 3.5"; "x"; "y"]%string) = Ok r /\
    dom r = list_to_set column_names.
Proof.
  split.
  - apply (proj1 (row_shape (table_row ["1.2.3"; "Name"; "Kind"]%string))).
    vm_compute. lia.
  - apply (proj2 (row_shape
       (table_row ["1.2.3"; "Name"; "Kind"; "PS 3.5"; "x"; "y"]%string))).
    vm_compute. lia.
Defined.

(** C2 as stated fails: a row with four cell values, and a row with six,
    yield a record and no error. *)
Lemma wrong_cell_count_accepted :
  let row4 := table_row ["1.2.3"; "Name"; "Kind"; "PS 3.5"]%string in
  let row6 := table_row ["1.2.3"; "Name"; "Kind"; "PS 3.5"; "x"; "y"]%string in
  length (row_cells row4) = 4%nat /\ length (row_cells row6) = 6%nat /\
  parse_row column_names row4
    = Ok (record (lit "1.2.3") (lit "Name") (lit "Kind") []) /\
  parse_row column_names row6
    = Ok (record (lit "1.2.3") (lit "Name") (lit "Kind") [lit "x"; lit "y"]) /\
  ~ (forall row, length (row_cells row) <> 5%nat ->
                 exists e, parse_row column_names row = Raise e).
Proof.
  cbv zeta.
  assert (parse_row column_names
            (table_row ["1.2.3"; "Name"; "Kind"; "PS 3.5"]%string)
          = Ok (record (lit "1.2.3") (lit "Name") (lit "Kind") [])) as H4.
  { apply (parse_row_spec _ _ _ _ (lit "PS 3.5")). by vm_compute. }
  split; [by vm_compute|]. split; [by vm_compute|]. split; [exact H4|].
  split.
  - apply (parse_row_spec _ _ _ _ (lit "PS 3.5")). by vm_compute.
  - intros H.
    destruct (H (table_row ["1.2.3"; "Name"; "Kind"; "PS 3.5"]%string))
      as [e He].
    + vm_compute. lia.
    + rewrite H4 in He. discriminate.
Qed.

(** C3, as the code has it: a row that yields exactly four cell values,
    the shape the extractor is written for, gives a record with exactly the
    five columns, each holding a string, and its retired field is the empty
    string or ["Retired"]: ["Retired"] when the name cell holds
    ["(Retired)"], the empty string otherwise. *)
Theorem record_shape row :
  length (row_cells row) = 4%nat ->
  exists r, parse_row column_names row = Ok r /\
    dom r = list_to_set column_names /\ size r = 5%nat /\
    (r !! lit "Retired" = Some [] \/ r !! lit "Retired" = Some (lit "Retired")) /\
    r !! lit "Retired" =
      Some (if contains (lit "(Retired)") (nth 1 (row_cells row) [])
            then lit "Retired" else []).
Proof.
  intros Hlen.
  destruct (four_cells (row_cells row)) as (a & name & c & d & rest & H);
    [lia|].
  rewrite H in Hlen. destruct rest; [|simpl in Hlen; lia].
  exists (record a name c []). split; [by eapply parse_row_spec|].
  split; [apply record_dom|]. split; [apply record_size|].
  destruct (record_fields a name c []) as (_ & _ & _ & _ & Hr).
  rewrite Hr, H. cbn [nth hd].
  destruct (contains (lit "(Retired)") name); split; auto.
Qed.

Lemma record_shape_witness :
  exists r,
    parse_row column_names
      (table_row ["1.2.3"; "Name (Retired)"; "Kind"; "PS 3.5"]%string) = Ok r /\
    dom r = list_to_set column_names /\ size r = 5%nat /\
    r !! lit "Retired" = Some (lit "Retired").
Proof.
  destruct (record_shape
              (table_row ["1.2.3"; "Name (Retired)"; "Kind"; "PS 3.5"]%string))
    as (r & Hr & Hd & Hs & _ & Hret).
  - by vm_compute.
  - exists r. repeat split; assumption.
Defined.

(** C3 as stated fails: for a row with exactly five cell values the
    retired field holds the text of the fifth cell. *)
Lemma five_cells_retired_field :
  let row := table_row ["1.2.3"; "Name"; "Kind"; "PS 3.5"; "x"]%string in
  length (row_cells row) = 5%nat /\
  exists r, parse_row column_names row = Ok r /\
    r !! lit "Retired" = Some (lit "x") /\
    r !! lit "Retired" <> Some [] /\
    r !! lit "Retired" <> Some (lit "Retired").
Proof.
  cbv zeta. split; [by vm_compute|].
  exists (record (lit "1.2.3") (lit "Name") (lit "Kind") [lit "x"]).
  split; [apply (parse_row_spec _ _ _ _ (lit "PS 3.5")); by vm_compute|].
  destruct (record_fields (lit "1.2.3") (lit "Name") (lit "Kind") [lit "x"])
    as (_ & _ & _ & _ & Hr).
  rewrite Hr. split; [by vm_compute|]. split; by vm_compute.
Qed.



(** ** Formatting *)


Lemma dict_get_Some {V} (d : gmap str V) k v :
  d !! k = Some v -> dict_get d k = Ok v.
Proof. unfold dict_get. by intros ->. Qed.

Lemma format_from_text kw s t :
  plain_text s = true ->
  format_from kw None (s ++ t) =
    let* r := format_from kw None t in Ok (s ++ r).
Proof.
  induction s as [|c s IH]; intros H.
  - simpl. by destruct (format_from kw None t).
  - simpl in H. apply andb_true_iff in H as [Hc Hs].
    apply andb_true_iff in Hc as [H1 H2].
    apply negb_true_iff in H1, H2.
    change ((c :: s) ++ t) with (c :: (s ++ t)).
    cbn [format_from]. rewrite H1, H2, (IH Hs).
    by destruct (format_from kw None t).
Qed.

Lemma format_from_key kw acc key t :
  forallb (fun c => negb (c =? 125)) key = true ->
  format_from kw (Some acc) (key ++ 125 :: t) =
    let* v := dict_get kw (acc ++ key) in
    let* r := format_from kw None t in
    Ok (v ++ r).
Proof.
  revert acc. induction key as [|c key IH]; intros acc H.
  - cbn [app format_from]. by rewrite N.eqb_refl, app_nil_r.
  - simpl in H. apply andb_true_iff in H as [Hc Hk].
    apply negb_true_iff in Hc.
    change ((c :: key) ++ 125 :: t) with (c :: (key ++ 125 :: t)).
    cbn [format_from]. rewrite Hc, (IH _ Hk).
    by rewrite <- app_assoc.
Qed.

Lemma format_from_field kw key t :
  field_key key = true ->
  format_from kw None (123 :: key ++ 125 :: t) =
    let* v := dict_get kw key in
    let* r := format_from kw None t in
    Ok (v ++ r).
Proof.
  destruct key as [|c key]; [done|]. intros H.
  apply andb_true_iff in H as [Hc Hk]. apply negb_true_iff in Hc.
  change ((c :: key) ++ 125 :: t) with (c :: (key ++ 125 :: t)).
  cbn [format_from]. rewrite N.eqb_refl, Hc.
  simpl in Hk. apply andb_true_iff in Hk as [Hc' Hk].
  apply negb_true_iff in Hc'. rewrite Hc'.
  by rewrite format_from_key.
Qed.

Lemma complete_lookup attr key :
  complete attr -> In key column_names -> exists v, attr !! key = Some v.
Proof.
  intros H Hin. unfold complete in H. rewrite Forall_forall in H.
  apply H. by apply list_elem_of_In.
Qed.

Lemma entry_format_shape :
  entry_format =
    lit "'" ++ 123 :: lit "UID Value" ++ 125 ::
    lit "': ('" ++ 123 :: lit "UID Name" ++ 125 ::
    lit "', '" ++ 123 :: lit "UID Type" ++ 125 ::
    lit "', '" ++ 123 :: lit "UID Info" ++ 125 ::
    lit "', '" ++ 123 :: lit "Retired" ++ 125 :: lit "')" ++ [].
Proof. by vm_compute. Qed.

Lemma format_entry attr :
  complete attr -> format entry_format attr = Ok (entry_text attr).
Proof.
  intros H.
  destruct (complete_lookup attr (lit "UID Value") H) as [v Hv];
    [simpl; tauto|].
  destruct (complete_lookup attr (lit "UID Name") H) as [n Hn];
    [simpl; tauto|].
  destruct (complete_lookup attr (lit "UID Type") H) as [t Ht];
    [simpl; tauto|].
  destruct (complete_lookup attr (lit "UID Info") H) as [i Hi];
    [simpl; tauto|].
  destruct (complete_lookup attr (lit "Retired") H) as [r Hr];
    [simpl; tauto|].
  unfold entry_text, field. rewrite Hv, Hn, Ht, Hi, Hr. cbn [default].
  apply dict_get_Some in Hv, Hn, Ht, Hi, Hr.
  unfold format. rewrite entry_format_shape.
  repeat (rewrite format_from_text by (by vm_compute);
          rewrite format_from_field by (by vm_compute)).
  rewrite format_from_text by (by vm_compute).
  rewrite Hv, Hn, Ht, Hi, Hr. cbn [bind format_from].
  by rewrite app_nil_r.
Qed.

Lemma entry_format_eq :
  percent (lit "'{UID Value}': %s")
    [lit "('{UID Name}', '{UID Type}', '{UID Info}', '{Retired}')"]
  = Ok entry_format.
Proof. by vm_compute. Qed.

Lemma percent_opening dict_name :
  percent (nl ++ lit "%s = {" ++ nl ++ lit "    ") [dict_name]
  = Ok (nl ++ dict_name ++ lit " = {" ++ nl ++ lit "    ").
Proof. by vm_compute. Qed.

Lemma percent_header script_name :
  percent ([34; 34; 34] ++ lit "DICOM UID dictionary auto-generated by %s"
           ++ [34; 34; 34] ++ nl) [script_name]
  = Ok (header_text script_name).
Proof. by vm_compute. Qed.

Lemma percent_finished count :
  percent (lit "Finished, wrote %d UIDs") [count]
  = Ok (lit "Finished, wrote " ++ count ++ lit " UIDs").
Proof. by vm_compute. Qed.

Lemma mapM_Ok_Forall {A B} (f : A -> result B) (P : B -> Prop) :
  (forall x y, f x = Ok y -> P y) ->
  forall l ys, mapM f l = Ok ys -> Forall P ys.
Proof.
  intros Hf. induction l as [|x l IH]; intros ys; simpl.
  - intros [= <-]. constructor.
  - destruct (f x) as [y|e] eqn:Hx; [|done]. simpl.
    destruct (mapM f l) as [ys'|e]; [|done]. simpl.
    intros [= <-]. constructor; [by eapply Hf|by apply IH].
Qed.

Lemma mapM_format attrs :
  Forall complete attrs ->
  mapM (format entry_format) attrs = Ok (List.map entry_text attrs).
Proof.
  induction 1 as [|attr attrs H _ IH]; [done|].
  cbn [mapM List.map]. by rewrite (format_entry _ H), IH.
Qed.

(** ** The serialiser *)

Lemma write_dict_spec fp dict_name attributes w old :
  fs w !! fp = Some old ->
  Forall complete attributes ->
  write_dict fp dict_name attributes w =
    (World (<[fp := old ++ dict_text dict_name attributes]> (fs w)) (stdout w),
     Ok tt).
Proof.
  intros Hfs Hc. unfold write_dict.
  rewrite entry_format_eq. unfold io_bind at 1. unfold lift at 1.
  rewrite percent_opening. unfold io_bind at 1. unfold lift at 1.
  unfold io_bind at 1. unfold write at 1. rewrite Hfs.
  rewrite (mapM_format _ Hc). unfold io_bind at 1. unfold lift at 1.
  unfold io_bind, write. cbn [fs stdout].
  rewrite lookup_insert_eq. cbn [fs stdout]. rewrite lookup_insert_eq.
  rewrite !insert_insert_eq. unfold dict_text.
  by rewrite <- !app_assoc.
Qed.

(** ** The normalisation pass *)

Lemma replace_ampersand name :
  replace name (lit "&") (lit "and") = ampersand_to_and name.
Proof. change (lit "&") with [38]. apply replace_char. Qed.

Lemma replace_soft_hyphen value :
  replace value soft_hyphen [] = without_soft_hyphen value.
Proof.
  unfold soft_hyphen. rewrite replace_char. unfold without_soft_hyphen.
  induction value as [|c value IH]; [done|].
  simpl. rewrite IH. by destruct (c =? 173).
Qed.

Lemma normalise_spec attr name value :
  attr !! lit "UID Name" = Some name ->
  attr !! lit "UID Value" = Some value ->
  normalise attr =
    Ok (<[lit "UID Value" := without_soft_hyphen value]>
          (<[lit "UID Name" := ampersand_to_and name]> attr)).
Proof.
  intros Hn Hv. unfold normalise.
  rewrite (dict_get_Some _ _ _ Hn). cbn [bind].
  rewrite (dict_get_Some _ _ value).
  - cbn [bind]. by rewrite replace_ampersand, replace_soft_hyphen.
  - rewrite lookup_insert_ne by (by vm_compute). exact Hv.
Qed.

Lemma normalise_complete attr :
  complete attr ->
  exists attr', normalise attr = Ok attr' /\
                normalised attr attr' /\ complete attr'.
Proof.
  intros H.
  destruct (complete_lookup attr (lit "UID Name") H) as [n Hn];
    [simpl; tauto|].
  destruct (complete_lookup attr (lit "UID Value") H) as [v Hv];
    [simpl; tauto|].
  eexists. split; [by apply normalise_spec|]. split.
  - unfold normalised. rewrite Hn, Hv. split; [|split].
    + rewrite lookup_insert_ne by (by vm_compute). apply lookup_insert_eq.
    + apply lookup_insert_eq.
    + intros key H1 H2. by rewrite !lookup_insert_ne.
  - unfold complete in *. eapply Forall_impl; [exact H|].
    intros key Hk. cbn beta in *. rewrite !lookup_insert_is_Some'. auto.
Qed.

Lemma mapM_normalise rows :
  Forall complete rows ->
  exists attrs, mapM normalise rows = Ok attrs /\
                Forall2 normalised rows attrs /\ Forall complete attrs.
Proof.
  induction 1 as [|row rows H _ (attrs & IH1 & IH2 & IH3)].
  - exists []. by repeat split; constructor.
  - destruct (normalise_complete row H) as (attr' & H1 & H2 & H3).
    exists (attr' :: attrs). cbn [mapM]. rewrite H1, IH1.
    by repeat split; constructor.
Qed.

(** ** The table locator *)

Lemma parse_row_complete row r :
  parse_row column_names row = Ok r -> complete r.
Proof.
  destruct (Nat.lt_ge_cases (length (row_cells row)) 4) as [H|H].
  - by rewrite parse_row_short.
  - apply four_cells in H as (a & name & c & d & rest & H).
    rewrite (parse_row_spec _ _ _ _ _ _ H). intros [= <-].
    apply record_complete.
Qed.

Lemma for_tables_complete tables caption rows :
  for_tables tables caption = Ok (Some rows) -> Forall complete rows.
Proof.
  induction tables as [|table tables IH]; [done|].
  cbn [for_tables].
  destruct (find (br ++ lit "caption") table) as [c|]; [|done].
  case_bool_decide; [|exact IH].
  destruct (find (br ++ lit "tbody") table) as [tbody|]; [|done].
  destruct (mapM _ _) as [row_attrs|e] eqn:Hm; [|done].
  cbn [bind]. intros [= <-].
  eapply mapM_Ok_Forall; [|exact Hm]. apply parse_row_complete.
Qed.

Lemma for_tables_passed pre rest caption :
  Forall (passed caption) pre ->
  for_tables (pre ++ rest) caption = for_tables rest caption.
Proof.
  induction 1 as [|table pre (c & Hc & Ht) _ IH]; [done|].
  cbn [app for_tables]. rewrite Hc. by case_bool_decide.
Qed.

Lemma for_tables_no_caption table rest caption :
  find (br ++ lit "caption") table = None ->
  for_tables (table :: rest) caption = Raise AttributeError.
Proof. intros H. cbn [for_tables]. by rewrite H. Qed.

Lemma for_tables_no_match tables caption :
  (forall table c, In table tables ->
                   find (br ++ lit "caption") table = Some c ->
                   text c <> Some caption) ->
  for_tables tables caption = Ok None \/
  for_tables tables caption = Raise AttributeError.
Proof.
  induction tables as [|table tables IH]; intros H; [by left|].
  cbn [for_tables].
  destruct (find (br ++ lit "caption") table) as [c|] eqn:Hc; [|by right].
  case_bool_decide as Ht.
  - exfalso. by eapply (H table c); [left|..].
  - apply IH. intros t c' Hin. apply H. by right.
Qed.

(** ** The script *)

Lemma main_raise script_name root w e :
  parse_docbook_table root (lit "UID Values") = Raise e ->
  main script_name root w = (w, Raise e).
Proof. intros H. unfold main, io_bind, lift. by rewrite H. Qed.

Lemma main_none script_name root w :
  parse_docbook_table root (lit "UID Values") = Ok None ->
  main script_name root w = (w, Raise TypeError).
Proof. intros H. unfold main, io_bind, lift. by rewrite H. Qed.

Lemma main_found script_name root rows w :
  parse_docbook_table root (lit "UID Values") = Ok (Some rows) ->
  exists attrs,
    mapM normalise rows = Ok attrs /\
    Forall2 normalised rows attrs /\
    main script_name root w =
      (World (<[PYDICOM_DICT_FILENAME :=
                  header_text script_name ++ dict_text DICT_NAME attrs]> (fs w))
             (stdout w ++ finished_text (length attrs) ++ nl),
       Ok tt).
Proof.
  intros H.
  destruct (mapM_normalise rows) as (attrs & Hn & H2 & Hc).
  { by eapply for_tables_complete. }
  exists attrs. split; [exact Hn|]. split; [exact H2|].
  unfold main. unfold io_bind at 1. unfold lift at 1. rewrite H.
  unfold io_bind at 1. unfold lift at 1. cbn [iadd app].
  unfold io_bind at 1. unfold lift at 1. rewrite Hn.
  unfold io_bind at 1. unfold open_w at 1.
  rewrite percent_header. unfold io_bind at 1. unfold lift at 1.
  unfold io_bind at 1. unfold write at 1. cbn [fs stdout].
  rewrite lookup_insert_eq.
  unfold io_bind at 1.
  erewrite write_dict_spec; [|cbn [fs]; apply lookup_insert_eq|exact Hc].
  unfold io_bind at 1. unfold close at 1.
  rewrite percent_finished. unfold io_bind, lift, print. cbn [fs stdout].
  by rewrite !insert_insert_eq, app_nil_l, <- app_assoc.
Qed.


(** C5: when the table is found, every extracted record goes through the
    normalisation pass before the file is written: in the name every ['&']
    becomes ["and"], in the value every soft hyphen (U+00AD) is removed,
    and every other field (kind, info, retired) is left as it was; the
    file holds the serialisation of the normalised records. *)
Theorem normalisation_pass script_name root rows w :
  parse_docbook_table root (lit "UID Values") = Ok (Some rows) ->
  exists attrs,
    mapM normalise rows = Ok attrs /\
    Forall2 normalised rows attrs /\
    fs (main script_name root w).1 !! PYDICOM_DICT_FILENAME =
      Some (header_text script_name ++ dict_text DICT_NAME attrs).
Proof.
  intros H.
  destruct (main_found script_name root rows w H) as (attrs & Hn & H2 & Hm).
  exists attrs. split; [exact Hn|]. split; [exact H2|].
  rewrite Hm. cbn [fst fs]. apply lookup_insert_eq.
Qed.

Lemma normalisation_pass_witness :
  let root :=
    book [captioned_table "UID Values"
            [Elem (br ++ lit "tr") None
               [text_cell (lit "1.2" ++ soft_hyphen ++ lit ".3");
                para_cell "A & B Storage"; para_cell "SOP Class";
                para_cell "PS 3.4"]]] in
  let rows :=
    [record (lit "1.2" ++ soft_hyphen ++ lit ".3") (lit "A & B Storage")
            (lit "SOP Class") []] in
  exists attrs,
    mapM normalise rows = Ok attrs /\
    Forall2 normalised rows attrs /\
    fs (main (lit "generate_uid_dict.py") root empty_world).1
      !! PYDICOM_DICT_FILENAME =
      Some (header_text (lit "generate_uid_dict.py") ++
            dict_text DICT_NAME attrs).
Proof.
  cbv zeta. apply normalisation_pass. vm_compute. reflexivity.
Defined.

Lemma join_in_order sep x rest :
  join sep (x :: rest) = x ++ flat_map (fun y => sep ++ y) rest.
Proof.
  revert x. induction rest as [|y rest IH]; intros x.
  - cbn. by rewrite app_nil_r.
  - change (join sep (x :: y :: rest)) with (x ++ sep ++ join sep (y :: rest)).
    rewrite IH. cbn [flat_map]. by rewrite <- app_assoc.
Qed.

Lemma flat_map_map {A B C} (g : A -> B) (f : B -> list C) l :
  flat_map f (List.map g l) = flat_map (fun x => f (g x)) l.
Proof.
  induction l as [|x l IH]; [done|]. cbn [List.map flat_map]. by rewrite IH.
Qed.

Lemma join_entries attrs :
  join (lit ",  # noqa" ++ nl ++ lit "    ") (List.map entry_text attrs)
  = entries_in_order attrs.
Proof.
  destruct attrs as [|first others]; [done|].
  cbn [List.map]. rewrite join_in_order, flat_map_map.
  unfold entries_in_order. reflexivity.
Qed.

(** C6: the serialiser appends to the file the opening line, then the
    entry of each record, written ['<value>': ('<name>', '<kind>', '<info>',
    '<retired>')], one entry for each record and in the order of the list
    it is given (each entry after the first preceded by a comma, the lint
    marker and a line break), then the lint marker and the closing line;
    nothing is sorted and no record is left out. *)
Theorem serialiser_output fp dict_name attributes w old :
  fs w !! fp = Some old ->
  Forall complete attributes ->
  write_dict fp dict_name attributes w =
    (World (<[fp := old ++
                    (nl ++ dict_name ++ lit " = {" ++ nl ++ lit "    " ++
                     entries_in_order attributes ++
                     lit "  # noqa" ++ nl ++ lit "}" ++ nl)]> (fs w))
           (stdout w),
     Ok tt).
Proof.
  intros Hfs Hc.
  rewrite (write_dict_spec fp dict_name attributes w old Hfs Hc).
  unfold dict_text. by rewrite join_entries.
Qed.

Lemma serialiser_output_witness :
  write_dict (lit "out.py") DICT_NAME
    [record (lit "2") (lit "B") (lit "T") [];
     record (lit "3") (lit "C: x") (lit "T") [];
     record (lit "1") (lit "A (Retired)") (lit "T") []]
    (World {[lit "out.py" := lit "# head"]} [])
  = (World {[lit "out.py" :=
               lit "# head" ++ nl ++
               lit "UID_dictionary = {" ++ nl ++
               lit "    '2': ('B', 'T', '', '')," ++ lit "  # noqa" ++ nl ++
               lit "    '3': ('C', 'T', 'x', '')," ++ lit "  # noqa" ++ nl ++
               lit "    '1': ('A', 'T', '', 'Retired')" ++ lit "  # noqa" ++ nl ++
               lit "}" ++ nl]}
           [],
     Ok tt).
Proof.
  rewrite (serialiser_output (lit "out.py") DICT_NAME
             [record (lit "2") (lit "B") (lit "T") [];
              record (lit "3") (lit "C: x") (lit "T") [];
              record (lit "1") (lit "A (Retired)") (lit "T") []]
             (World {[lit "out.py" := lit "# head"]} []) (lit "# head")).
  - vm_compute. reflexivity.
  - vm_compute. reflexivity.
  - constructor; [apply record_complete|].
    constructor; [apply record_complete|].
    constructor; [apply record_complete|]. constructor.
Defined.

(** C7: when no table of the document has a caption whose text is
    ["UID Values"], the script stops with an exception before the file is
    opened: files and standard output are as they were, so no output file
    (empty or not) is produced. *)
Theorem missing_table script_name root w :
  (forall table c,
     In table (iter (br ++ lit "table") root) ->
     find (br ++ lit "caption") table = Some c ->
     text c <> Some (lit "UID Values")) ->
  exists e, (e = TypeError \/ e = AttributeError) /\
            main script_name root w = (w, Raise e).
Proof.
  intros H.
  destruct (for_tables_no_match _ _ H) as [Hn|Hn].
  - exists TypeError. split; [by left|]. by apply main_none.
  - exists AttributeError. split; [by right|]. by apply main_raise.
Qed.

Lemma missing_table_witness :
  exists e, (e = TypeError \/ e = AttributeError) /\
    main (lit "generate_uid_dict.py")
         (book [captioned_table "Registry of DICOM Data Elements"
                  [table_row ["1.2.3"; "Name"; "Kind"; "PS 3.5"]%string]])
         empty_world
    = (empty_world, Raise e).
Proof.
  apply missing_table. intros table c Hin Hc.
  vm_compute in Hin. destruct Hin as [<-|[]].
  vm_compute in Hc. injection Hc as <-. vm_compute. discriminate.
Defined.

(** C8: the outcome of a run and the text it writes are functions of
    the document alone.  A second run on the state left by the first one
    leaves the same files and ends the same way; from any other state the
    run ends the same way, and it either writes the same text to the
    output file or, when it raises, leaves the state as it found it. *)
Theorem pipeline_deterministic script_name root w :
  let run1 := main script_name root w in
  let run2 := main script_name root run1.1 in
  fs run2.1 = fs run1.1 /\ run2.2 = run1.2 /\
  forall w',
    (main script_name root w').2 = run1.2 /\
    match run1.2 with
    | Ok _ =>
        fs (main script_name root w').1 !! PYDICOM_DICT_FILENAME =
        fs run1.1 !! PYDICOM_DICT_FILENAME
    | Raise _ => (main script_name root w').1 = w'
    end.
Proof.
  cbv zeta.
  destruct (parse_docbook_table root (lit "UID Values")) as [[rows|]|e] eqn:H.
  - destruct (main_found script_name root rows w H) as (attrs & Hn & _ & Hm).
    rewrite Hm. cbn [fst snd].
    destruct (main_found script_name root rows
                (World (<[PYDICOM_DICT_FILENAME :=
                            header_text script_name ++ dict_text DICT_NAME attrs]>
                          (fs w))
                       (stdout w ++ finished_text (length attrs) ++ nl)) H)
      as (attrs2 & Hn2 & _ & Hm2).
    rewrite Hn in Hn2. injection Hn2 as <-. rewrite Hm2. cbn [fst snd fs].
    split; [apply insert_insert_eq|]. split; [done|].
    intros w'.
    destruct (main_found script_name root rows w' H) as (attrs3 & Hn3 & _ & Hm3).
    rewrite Hn in Hn3. injection Hn3 as <-. rewrite Hm3. cbn [fst snd fs].
    by rewrite !lookup_insert_eq.
  - rewrite !(main_none _ _ _ H). cbn [fst snd].
    split; [done|]. split; [done|]. intros w'.
    by rewrite (main_none _ _ _ H).
  - rewrite !(main_raise _ _ _ _ H). cbn [fst snd].
    split; [done|]. split; [done|]. intros w'.
    by rewrite (main_raise _ _ _ _ H).
Qed.

(** C10: the locator reads the text of the caption of every table it
    meets.  When the tables before some table all have a caption with
    another text and that table has no caption child, the locator raises
    [AttributeError], whatever tables follow, and the script stops there
    with files and standard output as they were. *)
Theorem caption_required root caption pre table post :
  iter (br ++ lit "table") root = pre ++ table :: post ->
  Forall (passed caption) pre ->
  find (br ++ lit "caption") table = None ->
  parse_docbook_table root caption = Raise AttributeError /\
  (caption = lit "UID Values" ->
   forall script_name w,
     main script_name root w = (w, Raise AttributeError)).
Proof.
  intros Hi Hp Hc.
  assert (parse_docbook_table root caption = Raise AttributeError) as H.
  { unfold parse_docbook_table.
    by rewrite Hi, for_tables_passed, for_tables_no_caption. }
  split; [exact H|]. intros -> script_name w. by apply main_raise.
Qed.

Lemma caption_required_witness :
  let bare := Elem (br ++ lit "table") None [] in
  let other :=
    captioned_table "Other"
      [table_row ["9"; "Z"; "Kind"; "PS 3.5"]%string] in
  let wanted :=
    captioned_table "UID Values"
      [table_row ["1.2.3"; "Name"; "Kind"; "PS 3.5"]%string] in
  parse_docbook_table (book [other; bare; wanted]) (lit "UID Values")
    = Raise AttributeError /\
  main (lit "generate_uid_dict.py") (book [other; bare; wanted]) empty_world
    = (empty_world, Raise AttributeError).
Proof.
  cbv zeta.
  pose proof (caption_required
    (book [captioned_table "Other"
             [table_row ["9"; "Z"; "Kind"; "PS 3.5"]%string];
           Elem (br ++ lit "table") None [];
           captioned_table "UID Values"
             [table_row ["1.2.3"; "Name"; "Kind"; "PS 3.5"]%string]])
    (lit "UID Values")
    [captioned_table "Other"
       [table_row ["9"; "Z"; "Kind"; "PS 3.5"]%string]]
    (Elem (br ++ lit "table") None [])
    [captioned_table "UID Values"
       [table_row ["1.2.3"; "Name"; "Kind"; "PS 3.5"]%string]]) as H.
  destruct H as [H1 H2].
  - vm_compute. reflexivity.
  - constructor; [|constructor].
    eexists. split; [vm_compute; reflexivity|]. vm_compute. discriminate.
  - vm_compute. reflexivity.
  - split; [exact H1|]. by apply H2.
Defined.

(** The table that is parsed is the first one whose caption matches, and
    its rows are extracted in document order. *)
Lemma parse_docbook_table_found root caption pre table post c tbody :
  iter (br ++ lit "table") root = pre ++ table :: post ->
  Forall (passed caption) pre ->
  find (br ++ lit "caption") table = Some c ->
  text c = Some caption ->
  find (br ++ lit "tbody") table = Some tbody ->
  parse_docbook_table root caption =
    let* row_attrs := mapM (parse_row column_names)
                           (iter (br ++ lit "tr") tbody) in
    Ok (Some row_attrs).
Proof.
  intros Hi Hp Hc Ht Hb. unfold parse_docbook_table.
  rewrite Hi, for_tables_passed by done.
  cbn [for_tables]. rewrite Hc, Hb. by case_bool_decide.
Qed.

(** A run on a small document: the second table is the one parsed, and
    its two rows are written in the order of the table. *)
Example main_example :
  let root :=
    book [captioned_table "Other" [];
          captioned_table "UID Values"
            [table_row ["2"; "A & B: x"; "T"; "P"]%string;
             table_row ["1"; "N (Retired)"; "T"; "P"]%string]] in
  main (lit "generate_uid_dict.py") root empty_world =
    (World {[PYDICOM_DICT_FILENAME :=
               header_text (lit "generate_uid_dict.py") ++
               nl ++ lit "UID_dictionary = {" ++
               nl ++ lit "    '2': ('A and B', 'T', 'x', ''),  # noqa" ++
               nl ++ lit "    '1': ('N', 'T', '', 'Retired')  # noqa" ++
               nl ++ lit "}" ++ nl]}
           (lit "Finished, wrote 2 UIDs" ++ nl),
     Ok tt).
Proof. vm_compute. reflexivity. Qed.

(** ** Reading the dictionary back *)

Lemma lex_run_app st s1 s2 ts1 st1 ts2 st2 :
  lex_run st s1 = Some (ts1, st1) ->
  lex_run st1 s2 = Some (ts2, st2) ->
  lex_run st (s1 ++ s2) = Some (ts1 ++ ts2, st2).
Proof.
  revert st ts1. induction s1 as [|c s1 IH]; intros st ts1 H1 H2.
  - injection H1 as <- <-. exact H2.
  - cbn [app lex_run] in *.
    destruct (lex_step st c) as [[ts st']|]; [|done].
    destruct (lex_run st' s1) as [[ts' st'']|] eqn:Hr; [|done].
    injection H1 as <- <-.
    rewrite (IH _ _ Hr H2). by rewrite app_assoc.
Qed.

Lemma lex_run_quoted acc s :
  plain s = true ->
  lex_run (Quoted acc) (s ++ [39]) = Some ([TString (acc ++ s)], Between).
Proof.
  revert acc. induction s as [|c s IH]; intros acc H.
  - cbn. by rewrite app_nil_r.
  - cbn [plain forallb] in H. apply andb_true_iff in H as [Hc Hs].
    apply negb_true_iff in Hc.
    apply orb_false_iff in Hc as [Hc H3].
    apply orb_false_iff in Hc as [H1 H2].
    cbn [app lex_run lex_step]. rewrite H1, H2, H3.
    rewrite (IH _ Hs). by rewrite <- app_assoc.
Qed.

Lemma lex_run_literal s :
  plain s = true ->
  lex_run Between (39 :: s ++ [39]) = Some ([TString s], Between).
Proof.
  intros H. change (39 :: s ++ [39]) with ([39] ++ (s ++ [39])).
  by apply (lex_run_app _ _ _ [] (Quoted []) [TString s]);
    [|apply (lex_run_quoted [] s H)].
Qed.

Lemma entry_text_shape v n t i r :
  lit "'" ++ v ++ lit "': ('" ++ n ++ lit "', '" ++ t ++ lit "', '" ++
  i ++ lit "', '" ++ r ++ lit "')" =
  (39 :: v ++ [39]) ++ lit ": (" ++ (39 :: n ++ [39]) ++ lit ", " ++
  (39 :: t ++ [39]) ++ lit ", " ++ (39 :: i ++ [39]) ++ lit ", " ++
  (39 :: r ++ [39]) ++ lit ")".
Proof.
  change (lit "'") with [39]. change (lit "': ('") with ([39] ++ lit ": (" ++ [39]).
  change (lit "', '") with ([39] ++ lit ", " ++ [39]).
  change (lit "')") with ([39] ++ lit ")").
  repeat first [rewrite <- app_assoc | progress cbn [app]]. reflexivity.
Qed.

Lemma lex_run_entry attr :
  forallb plain (fields_of attr) = true ->
  lex_run Between (entry_text attr) = Some (entry_tokens attr, Between).
Proof.
  intros H. unfold fields_of, column_names in H.
  cbn [List.map forallb] in H.
  repeat (apply andb_true_iff in H as [? H]).
  unfold entry_text. rewrite entry_text_shape. unfold field.
  change (entry_tokens attr)
    with ([TString (field attr "UID Value")] ++ [TColon; TLParen] ++
          [TString (field attr "UID Name")] ++ [TComma] ++
          [TString (field attr "UID Type")] ++ [TComma] ++
          [TString (field attr "UID Info")] ++ [TComma] ++
          [TString (field attr "Retired")] ++ [TRParen]).
  unfold field.
  repeat (apply lex_run_app with (st1 := Between);
          [first [by apply lex_run_literal | by vm_compute]|]).
  by vm_compute.
Qed.

Lemma lex_run_separator : lex_run Between separator = Some ([TComma], Between).
Proof. by vm_compute. Qed.

Lemma lex_run_entries attrs :
  Forall (fun attr => forallb plain (fields_of attr) = true) attrs ->
  lex_run Between (join separator (List.map entry_text attrs))
  = Some (entries_tokens attrs, Between).
Proof.
  induction 1 as [|attr attrs H Hs IH]; [done|].
  destruct attrs as [|attr' attrs].
  - cbn [List.map join entries_tokens]. by apply lex_run_entry.
  - change (join separator (List.map entry_text (attr :: attr' :: attrs)))
      with (entry_text attr ++ separator ++
            join separator (List.map entry_text (attr' :: attrs))).
    change (entries_tokens (attr :: attr' :: attrs))
      with (entry_tokens attr ++ [TComma] ++ entries_tokens (attr' :: attrs)).
    apply lex_run_app with (st1 := Between); [by apply lex_run_entry|].
    apply lex_run_app with (st1 := Between); [apply lex_run_separator|].
    exact IH.
Qed.

Lemma lex_dict_text attrs :
  Forall (fun attr => forallb plain (fields_of attr) = true) attrs ->
  lex (dict_text DICT_NAME attrs)
  = Some ([TName DICT_NAME; TAssign; TLBrace] ++
          entries_tokens attrs ++ [TRBrace]).
Proof.
  intros H. unfold lex.
  assert (lex_run Between (dict_text DICT_NAME attrs)
          = Some ([TName DICT_NAME; TAssign; TLBrace] ++
                  entries_tokens attrs ++ [TRBrace], Between)) as ->; [|done].
  unfold dict_text.
  change (nl ++ DICT_NAME ++ lit " = {" ++ nl ++ lit "    " ++
          join (lit ",  # noqa" ++ nl ++ lit "    ")
               (List.map entry_text attrs) ++
          lit "  # noqa" ++ nl ++ lit "}" ++ nl)
    with ((nl ++ DICT_NAME ++ lit " = {" ++ nl ++ lit "    ") ++
          join separator (List.map entry_text attrs) ++
          (lit "  # noqa" ++ nl ++ lit "}" ++ nl)).
  apply lex_run_app with (st1 := Between); [by vm_compute|].
  apply lex_run_app with (st1 := Between); [by apply lex_run_entries|].
  by vm_compute.
Qed.

Lemma parse_entries_tokens attrs :
  parse_entries (entries_tokens attrs ++ [TRBrace])
  = Some (List.map key_value attrs).
Proof.
  induction attrs as [|attr attrs IH]; [done|].
  destruct attrs as [|attr' attrs]; [done|].
  change (entries_tokens (attr :: attr' :: attrs))
    with (entry_tokens attr ++ TComma :: entries_tokens (attr' :: attrs)).
  unfold entry_tokens at 1.
  cbn [app]. cbn [parse_entries]. rewrite IH. done.
Qed.

Lemma read_dict_text attrs :
  Forall (fun attr => forallb plain (fields_of attr) = true) attrs ->
  read_dict (dict_text DICT_NAME attrs)
  = Some (DICT_NAME, keyed_by_value attrs).
Proof.
  intros H. unfold read_dict. rewrite (lex_dict_text _ H).
  cbn [app parse_assignment]. by rewrite parse_entries_tokens.
Qed.

(** ** Dictionaries built from pairs *)

Lemma dict_of_to_map {V} (l : list (str * V)) :
  dict_of l = list_to_map (reverse l).
Proof.
  unfold dict_of. induction l as [|x l IH] using rev_ind; [done|].
  by rewrite foldl_snoc, reverse_snoc, IH.
Qed.

Lemma dict_of_lookup {V} (l : list (str * V)) k v :
  NoDup (List.map fst l) -> In (k, v) l -> dict_of l !! k = Some v.
Proof.
  intros Hnd Hin. rewrite dict_of_to_map.
  apply elem_of_list_to_map_1.
  - by rewrite fmap_reverse, reverse_Permutation.
  - apply elem_of_reverse. by apply list_elem_of_In.
Qed.

Lemma dict_of_size {V} (l : list (str * V)) :
  NoDup (List.map fst l) -> size (dict_of l) = length l.
Proof.
  intros Hnd. rewrite dict_of_to_map, map_size_list_to_map.
  - apply length_reverse.
  - by rewrite fmap_reverse, reverse_Permutation.
Qed.

(** C9, as the code has it: when every field of every record is free of
    single quotes, backslashes and line breaks, the text that the
    serialiser writes to an empty file reads back as the assignment of
    the mapping that sends each value to its (name, kind, info, retired),
    a later record overwriting an earlier one with the same value; when
    the values are distinct the mapping has one entry for each record. *)
Theorem round_trip fp attributes w :
  fs w !! fp = Some [] ->
  Forall plain_record attributes ->
  exists out,
    fs (write_dict fp DICT_NAME attributes w).1 !! fp = Some out /\
    read_dict out = Some (DICT_NAME, keyed_by_value attributes) /\
    (NoDup (List.map (fun attr => field attr "UID Value") attributes) ->
     size (keyed_by_value attributes) = length attributes /\
     forall attr, In attr attributes ->
       keyed_by_value attributes !! field attr "UID Value"
       = Some (tuple_of attr)).
Proof.
  intros Hfs Hp. exists (dict_text DICT_NAME attributes).
  assert (Forall complete attributes) as Hc.
  { eapply Forall_impl; [exact Hp|]. by intros attr [? _]. }
  assert (Forall (fun attr => forallb plain (fields_of attr) = true) attributes)
    as Hplain.
  { eapply Forall_impl; [exact Hp|]. by intros attr [_ ?]. }
  split.
  - rewrite (write_dict_spec _ _ _ _ _ Hfs Hc). cbn [fst fs].
    by rewrite lookup_insert_eq.
  - split; [by apply read_dict_text|].
    intros Hnd. unfold keyed_by_value.
    assert (NoDup (List.map fst
              (List.map (fun attr => (field attr "UID Value", tuple_of attr))
                        attributes))) as Hnd'.
    { by rewrite List.map_map. }
    split.
    + by rewrite (dict_of_size _ Hnd'), length_map.
    + intros attr Hin. apply (dict_of_lookup _ _ _ Hnd').
      apply in_map_iff. by exists attr.
Qed.

Lemma round_trip_witness :
  let attributes :=
    [record (lit "1.2.840.10008.1.2") (lit "Implicit VR Little Endian: Default")
            (lit "Transfer Syntax") [];
     record (lit "1.2.840.10008.1.1") (lit "Verification SOP Class")
            (lit "SOP Class") []] in
  let w := World {[lit "out.py" := []]} [] in
  exists out,
    fs (write_dict (lit "out.py") DICT_NAME attributes w).1 !! lit "out.py"
    = Some out /\
    read_dict out = Some (DICT_NAME, keyed_by_value attributes) /\
    size (keyed_by_value attributes) = 2%nat.
Proof.
  cbv zeta.
  destruct (round_trip (lit "out.py")
    [record (lit "1.2.840.10008.1.2") (lit "Implicit VR Little Endian: Default")
            (lit "Transfer Syntax") [];
     record (lit "1.2.840.10008.1.1") (lit "Verification SOP Class")
            (lit "SOP Class") []]
    (World {[lit "out.py" := []]} [])) as (out & H1 & H2 & H3).
  - vm_compute. reflexivity.
  - constructor; [|constructor; [|constructor]].
    + split; [apply record_complete|]. vm_compute. reflexivity.
    + split; [apply record_complete|]. vm_compute. reflexivity.
  - exists out. split; [exact H1|]. split; [exact H2|].
    apply H3. apply (bool_decide_unpack _). vm_compute. reflexivity.
Defined.

(** C9 as stated fails: a name made of a backslash and a single quote
    has no unescaped single quote, yet the entry that is written reads
    back with the name ['], not the name of the record. *)
Lemma escaped_quote_not_restored :
  let attr := record (lit "1.2.3") [92; 39] (lit "SOP Class") [] in
  let w := World {[lit "out.py" := []]} [] in
  complete attr /\
  forallb no_bare_quote (fields_of attr) = true /\
  NoDup (List.map (fun attr => field attr "UID Value") [attr]) /\
  exists out d,
    fs (write_dict (lit "out.py") DICT_NAME [attr] w).1 !! lit "out.py"
    = Some out /\
    read_dict out = Some (DICT_NAME, d) /\
    d !! lit "1.2.3" = Some ([39], lit "SOP Class", [], []) /\
    keyed_by_value [attr] !! lit "1.2.3"
    = Some ([92; 39], lit "SOP Class", [], []) /\
    d <> keyed_by_value [attr].
Proof.
  cbv zeta. split; [apply record_complete|].
  split; [by vm_compute|].
  split; [apply (bool_decide_unpack _); by vm_compute|].
  exists (dict_text DICT_NAME [record (lit "1.2.3") [92; 39] (lit "SOP Class") []]).
  exists (dict_of [(lit "1.2.3", (([39], lit "SOP Class", [], []) : uid_tuple))]).
  assert (dict_of [(lit "1.2.3", (([39], lit "SOP Class", [], []) : uid_tuple))] !! lit "1.2.3"
          = Some ([39], lit "SOP Class", [], [])) as Hd.
  { apply lookup_insert_eq. }
  assert (keyed_by_value [record (lit "1.2.3") [92; 39] (lit "SOP Class") []]
            !! lit "1.2.3"
          = Some ([92; 39], lit "SOP Class", [], [])) as Hk.
  { unfold keyed_by_value, dict_of. cbn [List.map foldl fst snd].
    rewrite lookup_insert. case_decide as Hv; [by vm_compute|].
    exfalso. apply Hv. by vm_compute. }
  split.
  - erewrite write_dict_spec;
      [|by vm_compute|constructor; [apply record_complete|constructor]].
    cbn [fst fs]. by rewrite lookup_insert_eq.
  - split.
    + unfold read_dict.
      replace (lex (dict_text DICT_NAME
                      [record (lit "1.2.3") [92; 39] (lit "SOP Class") []]))
        with (Some [TName DICT_NAME; TAssign; TLBrace;
                    TString (lit "1.2.3"); TColon; TLParen;
                    TString [39]; TComma; TString (lit "SOP Class"); TComma;
                    TString []; TComma; TString []; TRParen; TRBrace])
        by (by vm_compute).
      reflexivity.
    + split; [exact Hd|]. split; [exact Hk|].
      intros Heq. rewrite Heq, Hk in Hd. discriminate.
Qed.

(** * Further properties of the script *)

(** ** Cell values *)

Lemma replace_char_gone c s :
  existsb (fun x => x =? c) (replace s [c] []) = false.
Proof.
  rewrite replace_char. induction s as [|x s IH]; [done|].
  cbn [flat_map]. rewrite existsb_app, IH, orb_false_r.
  destruct (x =? c) eqn:Hx; [done|]. cbn [existsb]. by rewrite Hx.
Qed.

Lemma cell_value_clean cell :
  existsb (fun c => c =? 8203) (cell_value cell) = false.
Proof.
  unfold cell_value, zero_width_space.
  destruct (find (br ++ lit "emphasis") cell) as [emph_value|].
  - destruct (text emph_value); [apply replace_char_gone|done].
  - destruct (text cell); [apply replace_char_gone|done].
Qed.

(** No cell value of a row holds a zero width space (U+200B), whether
    the text came from the cell or from its emphasis child. *)
Theorem cell_values_without_zero_width_space row v :
  In v (row_cells row) -> existsb (fun c => c =? 8203) v = false.
Proof.
  unfold row_cells. intros H. apply in_map_iff in H as (cell & <- & _).
  apply cell_value_clean.
Qed.

Lemma cell_values_without_zero_width_space_witness :
  row_cells (Elem (br ++ lit "tr") None
               [text_cell ([8203] ++ lit "1.2" ++ [8203] ++ lit ".3 ")])
    = [lit "1.2.3"] /\
  existsb (fun c => c =? 8203) (lit "1.2.3") = false.
Proof.
  split; [by vm_compute|].
  apply (cell_values_without_zero_width_space
           (Elem (br ++ lit "tr") None
              [text_cell ([8203] ++ lit "1.2" ++ [8203] ++ lit ".3 ")])).
  vm_compute. by left.
Defined.

Lemma filter_flat_map {A B} (p : B -> bool) (f : A -> list B) l :
  List.filter p (flat_map f l) = flat_map (fun x => List.filter p (f x)) l.
Proof.
  induction l as [|x l IH]; [done|].
  cbn [flat_map]. by rewrite List.filter_app, IH.
Qed.

Lemma map_flat_map {A B C} (g : B -> C) (f : A -> list B) l :
  List.map g (flat_map f l) = flat_map (fun x => List.map g (f x)) l.
Proof.
  induction l as [|x l IH]; [done|].
  cbn [flat_map]. by rewrite List.map_app, IH.
Qed.

Lemma iter_children t tg tx cs :
  iter t (Elem tg tx cs) =
    (if str_eqb tg t then [Elem tg tx cs] else []) ++ flat_map (iter t) cs.
Proof.
  unfold iter. cbn [walk List.filter tag].
  rewrite filter_flat_map. by destruct (str_eqb tg t).
Qed.

(** The cell values of an element are those of its children, one child
    after the other, preceded by its own value when it is a [para]: every
    [para] below a row gives a cell value, at any depth. *)
Theorem row_cells_children tg tx cs :
  row_cells (Elem tg tx cs) =
    (if str_eqb tg (br ++ lit "para") then [cell_value (Elem tg tx cs)] else [])
    ++ flat_map row_cells cs.
Proof.
  unfold row_cells. rewrite iter_children, List.map_app, map_flat_map.
  by destruct (str_eqb tg (br ++ lit "para")).
Qed.

(** ** Records *)

(** The record of a row depends on its first three cells and on what the
    fifth position holds: the fourth cell and the cells after the fifth
    never reach it. *)
Theorem fourth_cell_discarded row1 row2 a name c d1 d2 rest1 rest2 :
  row_cells row1 = a :: name :: c :: d1 :: rest1 ->
  row_cells row2 = a :: name :: c :: d2 :: rest2 ->
  hd [] rest1 = hd [] rest2 ->
  parse_row column_names row1 = parse_row column_names row2.
Proof.
  intros H1 H2 Hr.
  rewrite (parse_row_spec _ _ _ _ _ _ H1), (parse_row_spec _ _ _ _ _ _ H2).
  unfold record. by rewrite Hr.
Qed.

Lemma fourth_cell_discarded_witness :
  parse_row column_names
    (table_row ["1.2.3"; "Name"; "Kind"; "PS 3.5"]%string)
  = parse_row column_names
      (table_row ["1.2.3"; "Name"; "Kind"; "PS 3.6"; ""; "more"]%string).
Proof.
  apply (fourth_cell_discarded _ _ (lit "1.2.3") (lit "Name") (lit "Kind")
           (lit "PS 3.5") (lit "PS 3.6") [] [[]; lit "more"]);
    by vm_compute.
Defined.

Lemma before_first_gone c s :
  existsb (fun x => x =? c) (before_first c s) = false.
Proof.
  induction s as [|x s IH]; [done|].
  cbn [before_first]. destruct (x =? c) eqn:Hx; [done|].
  cbn [existsb]. by rewrite Hx.
Qed.

Lemma after_last_gone c s :
  existsb (fun x => x =? c) (after_last c s) = false.
Proof. unfold after_last. by rewrite existsb_rev, before_first_gone. Qed.

Lemma name_part_no_colon name :
  contains [colon] (name_part name) = false.
Proof.
  unfold name_part. destruct (contains [colon] name) eqn:H; [|exact H].
  by rewrite contains_char, existsb_strip, before_first_gone.
Qed.

Lemma info_part_no_colon name :
  contains [colon] (info_part name) = false.
Proof.
  unfold info_part. destruct (contains [colon] name); [|done].
  by rewrite contains_char, existsb_strip, after_last_gone.
Qed.

Lemma parse_row_record row r :
  parse_row column_names row = Ok r ->
  exists a name c rest, r = record a name c rest /\
    exists d, row_cells row = a :: name :: c :: d :: rest.
Proof.
  destruct (Nat.lt_ge_cases (length (row_cells row)) 4) as [H|H].
  - by rewrite parse_row_short.
  - apply four_cells in H as (a & name & c & d & rest & H).
    rewrite (parse_row_spec _ _ _ _ _ _ H). intros [= <-].
    exists a, name, c, rest. split; [done|]. by exists d.
Qed.

(** Neither the name nor the info of an extracted record holds a colon:
    the name ends before the first colon and the info starts after the
    last one. *)
Theorem record_without_colon row r name info :
  parse_row column_names row = Ok r ->
  r !! lit "UID Name" = Some name ->
  r !! lit "UID Info" = Some info ->
  contains [colon] name = false /\ contains [colon] info = false.
Proof.
  intros H Hn Hi.
  apply parse_row_record in H as (a & n & c & rest & -> & _).
  destruct (record_fields a n c rest) as (_ & Hn' & _ & Hi' & _).
  rewrite Hn' in Hn. rewrite Hi' in Hi.
  injection Hn as <-. injection Hi as <-.
  split; [apply name_part_no_colon|apply info_part_no_colon].
Qed.

Lemma record_without_colon_witness :
  contains [colon] (lit "a") = false /\ contains [colon] (lit "c") = false.
Proof.
  apply (record_without_colon
           (table_row ["1.2.3"; "a : b:c"; "Kind"; "PS 3.5"]%string)
           (record (lit "1.2.3") (lit "a : b:c") (lit "Kind") [])).
  - apply (parse_row_spec _ _ _ _ (lit "PS 3.5")). by vm_compute.
  - by destruct (record_fields (lit "1.2.3") (lit "a : b:c") (lit "Kind") [])
      as (_ & -> & _).
  - by destruct (record_fields (lit "1.2.3") (lit "a : b:c") (lit "Kind") [])
      as (_ & _ & _ & -> & _).
Defined.

(** ** Stripped fields *)

Lemma lstrip_idempotent s : lstrip (lstrip s) = lstrip s.
Proof.
  induction s as [|c s IH]; [done|].
  cbn [lstrip]. destruct (isspace c) eqn:Hc; [exact IH|].
  cbn [lstrip]. by rewrite Hc.
Qed.

Lemma lstrip_snoc l x :
  isspace x = false -> exists l', lstrip (l ++ [x]) = l' ++ [x].
Proof.
  intros Hx. induction l as [|c l IH].
  - exists []. cbn. by rewrite Hx.
  - cbn [app lstrip]. destruct (isspace c); [exact IH|].
    by exists (c :: l).
Qed.

Lemma lstrip_head s :
  lstrip s = [] \/ exists x t, lstrip s = x :: t /\ isspace x = false.
Proof.
  induction s as [|c s IH]; [by left|].
  cbn [lstrip]. destruct (isspace c) eqn:Hc; [exact IH|].
  right. by exists c, s.
Qed.

Lemma lstrip_rstrip_lstrip s : lstrip (rstrip (lstrip s)) = rstrip (lstrip s).
Proof.
  destruct (lstrip_head s) as [->|(x & t & -> & Hx)]; [done|].
  unfold rstrip. cbn [rev].
  destruct (lstrip_snoc (rev t) x Hx) as [l' ->].
  rewrite rev_app_distr. cbn [rev app lstrip]. by rewrite Hx.
Qed.

Lemma rstrip_idempotent s : rstrip (rstrip s) = rstrip s.
Proof. unfold rstrip. by rewrite rev_involutive, lstrip_idempotent. Qed.

Lemma strip_idempotent s : strip (strip s) = strip s.
Proof.
  unfold strip. by rewrite lstrip_rstrip_lstrip, rstrip_idempotent.
Qed.

(** When the name cell of a row holds a colon or ["(Retired)"], the name
    of the record is stripped: stripping it again changes nothing.  The
    info of a record is always stripped. *)
Theorem record_fields_stripped row a name c d rest r :
  row_cells row = a :: name :: c :: d :: rest ->
  parse_row column_names row = Ok r ->
  (contains [colon] name = true \/ contains (lit "(Retired)") name = true ->
   exists n, r !! lit "UID Name" = Some n /\ strip n = n) /\
  exists i, r !! lit "UID Info" = Some i /\ strip i = i.
Proof.
  intros Hrow H. rewrite (parse_row_spec _ _ _ _ _ _ Hrow) in H.
  injection H as <-.
  destruct (record_fields a name c rest) as (_ & Hn & _ & Hi & _).
  split.
  - intros Hcase. eexists. split; [exact Hn|].
    unfold name_part. rewrite unretired_colon.
    destruct (contains [colon] name) eqn:Hc; [apply strip_idempotent|].
    destruct Hcase as [?|Hr]; [done|].
    unfold unretired. rewrite Hr. apply strip_idempotent.
  - eexists. split; [exact Hi|].
    unfold info_part. destruct (contains [colon] (unretired name));
      [apply strip_idempotent|done].
Qed.

Lemma record_fields_stripped_witness :
  exists n i,
    record (lit "1.2.3") (lit "Big  (Retired) : x : Little") (lit "Kind") []
      !! lit "UID Name" = Some n /\ strip n = n /\
    record (lit "1.2.3") (lit "Big  (Retired) : x : Little") (lit "Kind") []
      !! lit "UID Info" = Some i /\ strip i = i.
Proof.
  destruct (record_fields_stripped
              (table_row ["1.2.3"; "Big  (Retired) : x : Little "; "Kind";
                          "PS 3.5"]%string)
              (lit "1.2.3") (lit "Big  (Retired) : x : Little") (lit "Kind")
              (lit "PS 3.5") []
              (record (lit "1.2.3") (lit "Big  (Retired) : x : Little")
                      (lit "Kind") []))
    as [Hn (i & Hi & Hsi)].
  - by vm_compute.
  - apply (parse_row_spec _ _ _ _ (lit "PS 3.5")). by vm_compute.
  - destruct Hn as (n & Hn & Hsn); [left; by vm_compute|].
    exists n, i. repeat split; assumption.
Defined.

(** ** The normalisation pass, again *)

Lemma ampersand_to_and_clean name :
  existsb (fun c => c =? 38) (ampersand_to_and name) = false.
Proof.
  unfold ampersand_to_and. induction name as [|c name IH]; [done|].
  cbn [flat_map]. rewrite existsb_app, IH, orb_false_r.
  destruct (c =? 38) eqn:Hc; [by vm_compute|].
  cbn [existsb]. by rewrite Hc.
Qed.

Lemma ampersand_to_and_id name :
  existsb (fun c => c =? 38) name = false -> ampersand_to_and name = name.
Proof.
  unfold ampersand_to_and. induction name as [|c name IH]; [done|].
  cbn [existsb flat_map]. intros H. apply orb_false_iff in H as [Hc H].
  by rewrite Hc, (IH H).
Qed.

Lemma without_soft_hyphen_clean value :
  existsb (fun c => c =? 173) (without_soft_hyphen value) = false.
Proof.
  unfold without_soft_hyphen. induction value as [|c value IH]; [done|].
  cbn [List.filter]. destruct (c =? 173) eqn:Hc; [exact IH|].
  cbn [negb existsb]. by rewrite Hc.
Qed.

Lemma without_soft_hyphen_id value :
  existsb (fun c => c =? 173) value = false -> without_soft_hyphen value = value.
Proof.
  unfold without_soft_hyphen. induction value as [|c value IH]; [done|].
  cbn [existsb List.filter]. intros H. apply orb_false_iff in H as [Hc H].
  by rewrite Hc, (IH H).
Qed.

Lemma normalise_Ok attr attr' :
  normalise attr = Ok attr' ->
  exists name value,
    attr !! lit "UID Name" = Some name /\
    attr !! lit "UID Value" = Some value /\
    attr' = <[lit "UID Value" := without_soft_hyphen value]>
              (<[lit "UID Name" := ampersand_to_and name]> attr).
Proof.
  destruct (attr !! lit "UID Name") as [name|] eqn:Hn.
  - destruct (attr !! lit "UID Value") as [value|] eqn:Hv.
    + rewrite (normalise_spec _ _ _ Hn Hv). intros [= <-]. by exists name, value.
    + unfold normalise. rewrite (dict_get_Some _ _ _ Hn). cbn [bind].
      unfold dict_get. rewrite lookup_insert_ne by (by vm_compute).
      by rewrite Hv.
  - unfold normalise, dict_get. by rewrite Hn.
Qed.

(** After the pass the name of a record holds no ['&'] and its value no
    soft hyphen, and a second pass leaves the record as it is. *)
Theorem normalise_clean attr attr' :
  normalise attr = Ok attr' ->
  (exists name value,
     attr' !! lit "UID Name" = Some name /\
     attr' !! lit "UID Value" = Some value /\
     existsb (fun c => c =? 38) name = false /\
     existsb (fun c => c =? 173) value = false) /\
  normalise attr' = Ok attr'.
Proof.
  intros H. apply normalise_Ok in H as (name & value & Hn & Hv & ->).
  assert ((<[lit "UID Value" := without_soft_hyphen value]>
             (<[lit "UID Name" := ampersand_to_and name]> attr))
            !! lit "UID Name" = Some (ampersand_to_and name)) as Hn'.
  { rewrite lookup_insert_ne by (by vm_compute). apply lookup_insert_eq. }
  assert ((<[lit "UID Value" := without_soft_hyphen value]>
             (<[lit "UID Name" := ampersand_to_and name]> attr))
            !! lit "UID Value" = Some (without_soft_hyphen value)) as Hv'.
  { apply lookup_insert_eq. }
  split.
  - exists (ampersand_to_and name), (without_soft_hyphen value).
    split; [exact Hn'|]. split; [exact Hv'|].
    split; [apply ampersand_to_and_clean|apply without_soft_hyphen_clean].
  - rewrite (normalise_spec _ _ _ Hn' Hv').
    rewrite (ampersand_to_and_id _ (ampersand_to_and_clean name)).
    rewrite (without_soft_hyphen_id _ (without_soft_hyphen_clean value)).
    f_equal. apply map_eq. intros k.
    rewrite !lookup_insert. repeat case_decide; done.
Qed.

Lemma normalise_clean_witness :
  exists attr',
    normalise (record ([173] ++ lit "1.2" ++ [173]) (lit "A && B") (lit "K") [])
      = Ok attr' /\
    normalise attr' = Ok attr'.
Proof.
  destruct (normalise_complete
              (record ([173] ++ lit "1.2" ++ [173]) (lit "A && B") (lit "K") [])
              (record_complete _ _ _ _)) as (attr' & H & _).
  exists attr'. split; [exact H|].
  exact (proj2 (normalise_clean _ _ H)).
Defined.

(** ** The serialiser on records that lack a column *)

Lemma format_entry_lookups attr :
  format entry_format attr =
    let* v := dict_get attr (lit "UID Value") in
    let* n := dict_get attr (lit "UID Name") in
    let* t := dict_get attr (lit "UID Type") in
    let* i := dict_get attr (lit "UID Info") in
    let* r := dict_get attr (lit "Retired") in
    Ok (lit "'" ++ v ++ lit "': ('" ++ n ++ lit "', '" ++ t ++ lit "', '" ++
        i ++ lit "', '" ++ r ++ lit "')").
Proof.
  unfold format. rewrite entry_format_shape.
  repeat (rewrite format_from_text by (by vm_compute);
          rewrite format_from_field by (by vm_compute)).
  rewrite format_from_text by (by vm_compute).
  destruct (dict_get attr (lit "UID Value")); [|done].
  destruct (dict_get attr (lit "UID Name")); [|done].
  destruct (dict_get attr (lit "UID Type")); [|done].
  destruct (dict_get attr (lit "UID Info")); [|done].
  destruct (dict_get attr (lit "Retired")); [|done].
  cbn [bind format_from]. by rewrite app_nil_r.
Qed.

Lemma format_entry_cases attr :
  (complete attr /\ format entry_format attr = Ok (entry_text attr)) \/
  (~ complete attr /\ format entry_format attr = Raise KeyError).
Proof.
  destruct (attr !! lit "UID Value") as [v|] eqn:Hv;
    [destruct (attr !! lit "UID Name") as [n|] eqn:Hn;
     [destruct (attr !! lit "UID Type") as [t|] eqn:Ht;
      [destruct (attr !! lit "UID Info") as [i|] eqn:Hi;
       [destruct (attr !! lit "Retired") as [r|] eqn:Hr|]|]|]|].
  - left. assert (complete attr) as Hc.
    { unfold complete, column_names.
      repeat (constructor; [by eexists|]). constructor. }
    split; [exact Hc|by apply format_entry].
  - right. split.
    + intros Hc. destruct (complete_lookup attr (lit "Retired") Hc) as [? ?];
        [simpl; tauto|congruence].
    + rewrite format_entry_lookups. unfold dict_get.
      by rewrite Hv, Hn, Ht, Hi, Hr.
  - right. split.
    + intros Hc. destruct (complete_lookup attr (lit "UID Info") Hc) as [? ?];
        [simpl; tauto|congruence].
    + rewrite format_entry_lookups. unfold dict_get.
      by rewrite Hv, Hn, Ht, Hi.
  - right. split.
    + intros Hc. destruct (complete_lookup attr (lit "UID Type") Hc) as [? ?];
        [simpl; tauto|congruence].
    + rewrite format_entry_lookups. unfold dict_get.
      by rewrite Hv, Hn, Ht.
  - right. split.
    + intros Hc. destruct (complete_lookup attr (lit "UID Name") Hc) as [? ?];
        [simpl; tauto|congruence].
    + rewrite format_entry_lookups. unfold dict_get.
      by rewrite Hv, Hn.
  - right. split.
    + intros Hc. destruct (complete_lookup attr (lit "UID Value") Hc) as [? ?];
        [simpl; tauto|congruence].
    + rewrite format_entry_lookups. unfold dict_get.
      by rewrite Hv.
Qed.

Lemma mapM_format_incomplete attrs :
  Exists (fun attr => ~ complete attr) attrs ->
  mapM (format entry_format) attrs = Raise KeyError.
Proof.
  induction attrs as [|attr attrs IH]; intros H; [by inversion H|].
  cbn [mapM].
  destruct (format_entry_cases attr) as [[Hc ->]|[Hc ->]]; [|done].
  cbn [bind]. rewrite IH; [done|].
  inversion H as [? ? Hn|? ? Hn]; subst; [done|exact Hn].
Qed.

(** When some record lacks one of the five columns, the serialiser
    raises [KeyError] after it has written the opening line: the file is
    left with the opening line and no entry. *)
Theorem write_dict_missing_column fp dict_name attributes w old :
  fs w !! fp = Some old ->
  Exists (fun attr => ~ complete attr) attributes ->
  write_dict fp dict_name attributes w =
    (World (<[fp := old ++ nl ++ dict_name ++ lit " = {" ++ nl ++ lit "    "]>
              (fs w))
           (stdout w),
     Raise KeyError).
Proof.
  intros Hfs He. unfold write_dict.
  rewrite entry_format_eq. unfold io_bind at 1. unfold lift at 1.
  rewrite percent_opening. unfold io_bind at 1. unfold lift at 1.
  unfold io_bind at 1. unfold write at 1. rewrite Hfs.
  rewrite (mapM_format_incomplete _ He). unfold io_bind, lift.
  reflexivity.
Qed.

Lemma write_dict_missing_column_witness :
  write_dict (lit "out.py") DICT_NAME
    [record (lit "1") (lit "A") (lit "K") [];
     delete (lit "UID Info") (record (lit "2") (lit "B") (lit "K") [])]
    (World {[lit "out.py" := lit "# head"]} [])
  = (World (<[lit "out.py" :=
                lit "# head" ++ nl ++ DICT_NAME ++ lit " = {" ++ nl ++ lit "    "]>
              {[lit "out.py" := lit "# head"]})
           [],
     Raise KeyError).
Proof.
  refine (write_dict_missing_column (lit "out.py") DICT_NAME
            [record (lit "1") (lit "A") (lit "K") [];
             delete (lit "UID Info") (record (lit "2") (lit "B") (lit "K") [])]
            (World {[lit "out.py" := lit "# head"]} []) (lit "# head") _ _).
  - apply lookup_singleton_eq.
  - apply Exists_cons_tl, Exists_cons_hd. intros Hc.
    destruct (complete_lookup _ (lit "UID Info") Hc) as [v Hv];
      [simpl; tauto|].
    by rewrite lookup_delete_eq in Hv.
Defined.

(** ** The locator and the rows of the table *)



Lemma mapM_first_raise {A B} (f : A -> result B) l1 x l2 e :
  Forall (fun y => exists r, f y = Ok r) l1 ->
  f x = Raise e ->
  mapM f (l1 ++ x :: l2) = Raise e.
Proof.
  intros H Hx. induction H as [|y l1 [r Hr] _ IH].
  - cbn [app mapM]. by rewrite Hx.
  - cbn [app mapM]. by rewrite Hr, IH.
Qed.



(** The locator parses the first table, in document order, whose caption
    has the wanted text, whatever tables follow it, and returns the
    records of the [tr] elements below its [tbody] in document order. *)
Theorem first_matching_table root caption pre table post c tbody :
  iter (br ++ lit "table") root = pre ++ table :: post ->
  Forall (passed caption) pre ->
  find (br ++ lit "caption") table = Some c ->
  text c = Some caption ->
  find (br ++ lit "tbody") table = Some tbody ->
  parse_docbook_table root caption =
    let* row_attrs := mapM (parse_row column_names)
                           (iter (br ++ lit "tr") tbody) in
    Ok (Some row_attrs).
Proof. apply parse_docbook_table_found. Qed.

Lemma first_matching_table_witness :
  parse_docbook_table
    (book [captioned_table "Other" [table_row ["9"; "Z"; "K"; "P"]%string];
           captioned_table "UID Values" [table_row ["1"; "A"; "K"; "P"]%string];
           captioned_table "UID Values" [table_row ["2"; "B"; "K"; "P"]%string]])
    (lit "UID Values")
  = Ok (Some [record (lit "1") (lit "A") (lit "K") []]).
Proof.
  rewrite (first_matching_table _ (lit "UID Values")
    [captioned_table "Other" [table_row ["9"; "Z"; "K"; "P"]%string]]
    (captioned_table "UID Values" [table_row ["1"; "A"; "K"; "P"]%string])
    [captioned_table "UID Values" [table_row ["2"; "B"; "K"; "P"]%string]]
    (Elem (br ++ lit "caption") (Some (lit "UID Values")) [])
    (Elem (br ++ lit "tbody") None [table_row ["1"; "A"; "K"; "P"]%string])).
  - change (iter (br ++ lit "tr")
              (Elem (br ++ lit "tbody") None
                 [table_row ["1"; "A"; "K"; "P"]%string]))
      with [table_row ["1"; "A"; "K"; "P"]%string].
    cbn [mapM].
    rewrite (parse_row_spec _ (lit "1") (lit "A") (lit "K") (lit "P") [])
      by (by vm_compute).
    reflexivity.
  - by vm_compute.
  - constructor; [|constructor].
    eexists. split; [by vm_compute|]. by vm_compute.
  - by vm_compute.
  - by vm_compute.
  - by vm_compute.
Defined.

(** A table with the wanted caption and no [tbody] child makes the
    locator raise [AttributeError]; the script then stops with files and
    standard output as they were. *)
Theorem missing_tbody root caption pre table post c :
  iter (br ++ lit "table") root = pre ++ table :: post ->
  Forall (passed caption) pre ->
  find (br ++ lit "caption") table = Some c ->
  text c = Some caption ->
  find (br ++ lit "tbody") table = None ->
  parse_docbook_table root caption = Raise AttributeError /\
  (caption = lit "UID Values" ->
   forall script_name w,
     main script_name root w = (w, Raise AttributeError)).
Proof.
  intros Hi Hp Hc Ht Hb.
  assert (parse_docbook_table root caption = Raise AttributeError) as H.
  { unfold parse_docbook_table. rewrite Hi, for_tables_passed by done.
    cbn [for_tables]. rewrite Hc, Hb. by case_bool_decide. }
  split; [exact H|]. intros -> script_name w. by apply main_raise.
Qed.

Lemma missing_tbody_witness :
  let table :=
    Elem (br ++ lit "table") None
      [Elem (br ++ lit "caption") (Some (lit "UID Values")) [];
       Elem (br ++ lit "thead") None [table_row ["1"; "A"; "K"; "P"]%string]] in
  parse_docbook_table (book [table]) (lit "UID Values")
    = Raise AttributeError /\
  main (lit "generate_uid_dict.py") (book [table]) empty_world
    = (empty_world, Raise AttributeError).
Proof.
  cbv zeta.
  destruct (missing_tbody
    (book [Elem (br ++ lit "table") None
             [Elem (br ++ lit "caption") (Some (lit "UID Values")) [];
              Elem (br ++ lit "thead") None
                [table_row ["1"; "A"; "K"; "P"]%string]]])
    (lit "UID Values") []
    (Elem (br ++ lit "table") None
       [Elem (br ++ lit "caption") (Some (lit "UID Values")) [];
        Elem (br ++ lit "thead") None [table_row ["1"; "A"; "K"; "P"]%string]])
    [] (Elem (br ++ lit "caption") (Some (lit "UID Values")) []))
    as [H1 H2]; [by vm_compute|constructor|by vm_compute..|].
  split; [exact H1|]. by apply H2.
Defined.

(** One row with fewer than four cell values, after rows that are long
    enough, makes the locator raise [IndexError]: no list of records is
    returned, and the script stops with files and standard output as they
    were. *)
Theorem short_row_aborts root pre table post c tbody rows1 row rows2 :
  iter (br ++ lit "table") root = pre ++ table :: post ->
  Forall (passed (lit "UID Values")) pre ->
  find (br ++ lit "caption") table = Some c ->
  text c = Some (lit "UID Values") ->
  find (br ++ lit "tbody") table = Some tbody ->
  iter (br ++ lit "tr") tbody = rows1 ++ row :: rows2 ->
  Forall (fun r => (4 <= length (row_cells r))%nat) rows1 ->
  (length (row_cells row) < 4)%nat ->
  parse_docbook_table root (lit "UID Values") = Raise IndexError /\
  forall script_name w, main script_name root w = (w, Raise IndexError).
Proof.
  intros Hi Hp Hc Ht Hb Hrows H1 Hrow.
  assert (parse_docbook_table root (lit "UID Values") = Raise IndexError) as H.
  { rewrite (parse_docbook_table_found _ _ _ _ _ _ _ Hi Hp Hc Ht Hb), Hrows.
    rewrite (mapM_first_raise _ _ _ _ IndexError); [done| |].
    - eapply Forall_impl; [exact H1|]. intros r Hr.
      apply four_cells in Hr as (a & name & c' & d & rest & Hr).
      eexists. by eapply parse_row_spec.
    - by apply parse_row_short. }
  split; [exact H|]. intros script_name w. by apply main_raise.
Qed.

Lemma short_row_aborts_witness :
  main (lit "generate_uid_dict.py")
       (book [captioned_table "UID Values"
                [table_row ["1"; "A"; "K"; "P"]%string;
                 table_row ["2"; "B"; "K"]%string;
                 table_row ["3"; "C"; "K"; "P"]%string]])
       empty_world
  = (empty_world, Raise IndexError).
Proof.
  apply (short_row_aborts
    (book [captioned_table "UID Values"
             [table_row ["1"; "A"; "K"; "P"]%string;
              table_row ["2"; "B"; "K"]%string;
              table_row ["3"; "C"; "K"; "P"]%string]])
    []
    (captioned_table "UID Values"
       [table_row ["1"; "A"; "K"; "P"]%string;
        table_row ["2"; "B"; "K"]%string;
        table_row ["3"; "C"; "K"; "P"]%string])
    []
    (Elem (br ++ lit "caption") (Some (lit "UID Values")) [])
    (Elem (br ++ lit "tbody") None
       [table_row ["1"; "A"; "K"; "P"]%string;
        table_row ["2"; "B"; "K"]%string;
        table_row ["3"; "C"; "K"; "P"]%string])
    [table_row ["1"; "A"; "K"; "P"]%string]
    (table_row ["2"; "B"; "K"]%string)
    [table_row ["3"; "C"; "K"; "P"]%string]).
  - by vm_compute.
  - constructor.
  - by vm_compute.
  - by vm_compute.
  - by vm_compute.
  - by vm_compute.
  - constructor; [vm_compute; lia|constructor].
  - vm_compute. lia.
Defined.

(** ** The script as a whole *)

Lemma run_outcomes_cases script_name root w :
  (exists e, main script_name root w = (w, Raise e)) \/
  (exists attrs,
     main script_name root w =
       (World (<[PYDICOM_DICT_FILENAME :=
                   header_text script_name ++ dict_text DICT_NAME attrs]> (fs w))
              (stdout w ++ finished_text (length attrs) ++ nl),
        Ok tt)).
Proof.
  destruct (parse_docbook_table root (lit "UID Values")) as [[rows|]|e] eqn:H.
  - right.
    destruct (main_found script_name root rows w H) as (attrs & _ & _ & Hm).
    by exists attrs.
  - left. eexists. by apply main_none.
  - left. eexists. by apply main_raise.
Qed.


(** A run changes no file other than the output file, and only adds to
    what was printed. *)
Theorem other_files_untouched script_name root w name :
  name <> PYDICOM_DICT_FILENAME ->
  fs (main script_name root w).1 !! name = fs w !! name /\
  exists printed, stdout (main script_name root w).1 = stdout w ++ printed.
Proof.
  intros Hne.
  destruct (run_outcomes_cases script_name root w) as [[e ->]|[attrs ->]].
  - cbn [fst]. split; [done|]. exists []. by rewrite app_nil_r.
  - cbn [fst fs stdout]. split; [by rewrite lookup_insert_ne|]. by eexists.
Qed.

Lemma other_files_untouched_witness :
  let w := World {[lit "notes.txt" := lit "keep"]} (lit "earlier") in
  let root :=
    book [captioned_table "UID Values"
            [table_row ["1"; "A"; "K"; "P"]%string]] in
  fs (main (lit "generate_uid_dict.py") root w).1 !! lit "notes.txt"
    = Some (lit "keep") /\
  exists printed,
    stdout (main (lit "generate_uid_dict.py") root w).1
    = lit "earlier" ++ printed.
Proof.
  cbv zeta.
  destruct (other_files_untouched (lit "generate_uid_dict.py")
              (book [captioned_table "UID Values"
                       [table_row ["1"; "A"; "K"; "P"]%string]])
              (World {[lit "notes.txt" := lit "keep"]} (lit "earlier"))
              (lit "notes.txt")) as [H1 H2].
  - by vm_compute.
  - split; [|exact H2]. rewrite H1. apply lookup_singleton_eq.
Defined.



(** ** More on the fields of a record *)

(** Extraction never alters the value and the kind: they are the first
    and the third cell value of the row. *)
Theorem value_and_kind_unchanged row a name c d rest :
  row_cells row = a :: name :: c :: d :: rest ->
  exists r, parse_row column_names row = Ok r /\
    r !! lit "UID Value" = Some a /\ r !! lit "UID Type" = Some c.
Proof.
  intros H. exists (record a name c rest).
  split; [exact (parse_row_spec _ _ _ _ _ _ H)|].
  by destruct (record_fields a name c rest) as (Hv & _ & Ht & _).
Qed.

Lemma value_and_kind_unchanged_witness :
  exists r,
    parse_row column_names
      (table_row ["1.2:3"; "Name: info (Retired)"; "Kind: (Retired)";
                  "PS 3.5"]%string) = Ok r /\
    r !! lit "UID Value" = Some (lit "1.2:3") /\
    r !! lit "UID Type" = Some (lit "Kind: (Retired)").
Proof.
  exact (value_and_kind_unchanged
           (table_row ["1.2:3"; "Name: info (Retired)"; "Kind: (Retired)";
                       "PS 3.5"]%string)
           (lit "1.2:3") (lit "Name: info (Retired)") (lit "Kind: (Retired)")
           (lit "PS 3.5") [] eq_refl).
Defined.

Lemma after_last_is_after_first c s :
  existsb (fun x => x =? c) s = true ->
  existsb (fun x => x =? c) (after_first c s) = false ->
  after_last c s = after_first c s.
Proof.
  induction s as [|x s IH]; [done|].
  rewrite after_last_cons. cbn [existsb after_first].
  destruct (x =? c) eqn:Hx.
  - intros _ H. by rewrite H.
  - cbn [orb]. intros Hs H. rewrite Hs. by apply IH.
Qed.

(** When the name holds exactly one colon, the last colon is the first
    one: the info is the trimmed part of the name after its first colon. *)
Theorem single_colon_info row a name c d rest :
  row_cells row = a :: name :: c :: d :: rest ->
  contains [colon] name = true ->
  contains [colon] (after_first colon (unretired name)) = false ->
  exists r, parse_row column_names row = Ok r /\
    r !! lit "UID Info" = Some (strip (after_first colon (unretired name))) /\
    r !! lit "UID Name" = Some (strip (before_first colon (unretired name))).
Proof.
  intros Hrow Hc H1. exists (record a name c rest).
  split; [exact (parse_row_spec _ _ _ _ _ _ Hrow)|].
  destruct (record_fields a name c rest) as (_ & Hn & _ & Hi & _).
  rewrite <- unretired_colon in Hc.
  unfold name_part, info_part in *. rewrite Hc in *.
  rewrite contains_char in Hc, H1.
  by rewrite <- (after_last_is_after_first _ _ Hc H1).
Qed.

Lemma single_colon_info_witness :
  exists r,
    parse_row column_names
      (table_row ["1.2.840.10008.1.2.1";
                  "Explicit VR Little Endian: Default Transfer Syntax";
                  "Transfer Syntax"; "PS 3.5"]%string) = Ok r /\
    r !! lit "UID Info" = Some (lit "Default Transfer Syntax") /\
    r !! lit "UID Name" = Some (lit "Explicit VR Little Endian").
Proof.
  exact (single_colon_info
           (table_row ["1.2.840.10008.1.2.1";
                       "Explicit VR Little Endian: Default Transfer Syntax";
                       "Transfer Syntax"; "PS 3.5"]%string)
           (lit "1.2.840.10008.1.2.1")
           (lit "Explicit VR Little Endian: Default Transfer Syntax")
           (lit "Transfer Syntax") (lit "PS 3.5") [] eq_refl eq_refl eq_refl).
Defined.
